(** * PointsSwap_FHE: the encrypted loyalty-points ledger

    A shallow embedding of [contracts/PointsSwap_FHE.sol], and of the
    decrypt-and-verify cycle that [frontend/web/src/App.tsx] calls.

    - Solidity mappings are finite maps read with the type's zero value as
      default, exactly as storage reads behave.
    - [uint32] and [uint256] values are integers in [Z]; the 32-bit
      wrap-around of the homomorphic operations is written out in the laws
      of the FHE interface.
    - A transaction is a computation in a state-and-revert monad.  A failed
      [require] stops the computation and reports the revert string of the
      source together with the storage as it was at the point of failure, so
      that "nothing was written before the check" is a statement about the
      code and not only about the EVM's roll-back. *)

From stdpp Require Import gmap strings list.
From Stdlib Require Import ZArith Lia Ascii.

#[local] Open Scope string_scope.
#[local] Open Scope Z_scope.

(** ** Primitive Solidity types *)

Definition address : Type := Z.
Definition uint32 : Type := Z.
Definition uint256 : Type := Z.
Definition bytes : Type := list Byte.byte.

Definition two32 : Z := 2 ^ 32.

(** ** The FHE library interface

    [@fhevm/solidity/lib/FHE.sol] is an external dependency.  The contract
    uses it through the operations below; [decrypt] is the plaintext a handle
    stands for, and the three laws say that the operations are homomorphic
    for arithmetic modulo 2^32. *)

Module FHE.

Class Scheme : Type := {
  euint32 : Type;
  externalEuint32 : Type;
  (** the value of an untouched storage slot of type [euint32] *)
  uninitialized : euint32;
  fromExternal : externalEuint32 -> bytes -> euint32;
  isInitialized : euint32 -> bool;
  fromU32 : uint32 -> euint32;
  add : euint32 -> euint32 -> euint32;
  sub : euint32 -> euint32 -> euint32;
  mul : euint32 -> euint32 -> euint32;
  decrypt : euint32 -> Z;
  decrypt_fromU32 : forall n, decrypt (fromU32 n) = n mod two32;
  decrypt_add : forall a b, decrypt (add a b) = (decrypt a + decrypt b) mod two32;
  decrypt_sub : forall a b, decrypt (sub a b) = (decrypt a - decrypt b) mod two32;
  decrypt_mul : forall a b, decrypt (mul a b) = (decrypt a * decrypt b) mod two32
}.

End FHE.

(** ** Revert reasons and the error taxonomy *)

Inductive Error : Type :=
  | Unauthorized
  | AccountAlreadyExists
  | InvalidAttestation
  | BrandAlreadyRegistered
  | BrandPairUnsupported
  | AccountInactive
  | InvalidAmount
  | RateNotSet
  | AccountNotFound
  | AccountNotActive
  | InvalidAddress.

(** The revert strings of the contract, and the error each one stands for. *)
Definition error_table : list (string * Error) :=
  [ ("Not authorized", Unauthorized);
    ("Account already exists", AccountAlreadyExists);
    ("Invalid encrypted input", InvalidAttestation);
    ("Brand already supported", BrandAlreadyRegistered);
    ("Brand pair not supported", BrandPairUnsupported);
    ("Invalid encrypted rate", InvalidAttestation);
    ("Account inactive", AccountInactive);
    ("Unsupported brand", BrandPairUnsupported);
    ("Invalid amount", InvalidAmount);
    ("Exchange rate not set", RateNotSet);
    ("Account not found", AccountNotFound);
    ("Rate not found", RateNotSet);
    ("Account not active", AccountNotActive);
    ("Invalid address", InvalidAddress) ].

Fixpoint assoc_error (tbl : list (string * Error)) (reason : string) : option Error :=
  match tbl with
  | [] => None
  | (r, e) :: tbl' => if String.eqb r reason then Some e else assoc_error tbl' reason
  end.

Definition error_of (reason : string) : option Error := assoc_error error_table reason.

Section Contract.

Context {fhe : FHE.Scheme}.

(** ** Storage layout *)

Record LoyaltyAccount : Type := mkAccount {
  encryptedPoints : FHE.euint32;
  publicPoints : uint32;
  lastUpdated : uint256;
  isActive : bool
}.

Record ExchangeRate : Type := mkRate {
  encryptedRate : FHE.euint32;
  publicRate : uint32;
  rateLastUpdated : uint256
}.

Inductive Event : Type :=
  | AccountCreated (user : address) (initialPoints : uint32)
  | PointsConverted (user : address) (fromBrand toBrand : string) (amount : uint32)
  | ExchangeRateUpdated (brandPair : string) (newRate : uint32).

(** Calls into the access-control list of the FHE coprocessor. *)
Inductive AclCall : Type :=
  | AllowThis (h : FHE.euint32)
  | MakePubliclyDecryptable (h : FHE.euint32).

Record State : Type := mkState {
  accounts : gmap address LoyaltyAccount;
  exchangeRates : gmap string ExchangeRate;
  supportedBrands : gmap string bool;
  owner : address;
  brandList : list string;
  events : list Event;
  aclCalls : list AclCall
}.

Definition zeroAccount : LoyaltyAccount :=
  mkAccount FHE.uninitialized 0 0 false.

Definition zeroRate : ExchangeRate :=
  mkRate FHE.uninitialized 0 0.

(** Storage reads: [accounts[a]], [exchangeRates[k]], [supportedBrands[b]]. *)
Definition account_at (s : State) (a : address) : LoyaltyAccount :=
  default zeroAccount (accounts s !! a).

Definition rate_at (s : State) (k : string) : ExchangeRate :=
  default zeroRate (exchangeRates s !! k).

Definition brand_at (s : State) (b : string) : bool :=
  default false (supportedBrands s !! b).

(** ** Transactions *)

Record Env : Type := mkEnv {
  msg_sender : address;
  block_timestamp : uint256
}.

Inductive outcome (A : Type) : Type :=
  | Done (a : A) (s : State)
  | Reverted (reason : string) (s : State).
Arguments Done {A} a s.
Arguments Reverted {A} reason s.

Definition M (A : Type) : Type := State -> outcome A.

#[export] Instance M_ret : MRet M := fun A (a : A) s => Done a s.

#[export] Instance M_bind : MBind M := fun A B (k : A -> M B) (m : M A) s =>
  match m s with
  | Done a s' => k a s'
  | Reverted r s' => Reverted r s'
  end.

Definition require (c : bool) (reason : string) : M unit :=
  fun s => if c then Done tt s else Reverted reason s.

Definition read {A} (f : State -> A) : M A := fun s => Done (f s) s.

Definition write (f : State -> State) : M unit := fun s => Done tt (f s).

End Contract.

Arguments Done {fhe A} a s.
Arguments Reverted {fhe A} reason s.


(** ** The contract *)

Section Operations.

Context {fhe : FHE.Scheme}.

(** *** Storage writes *)

Definition set_account (a : address) (acct : LoyaltyAccount) (s : State) : State :=
  mkState (<[a := acct]> (accounts s)) (exchangeRates s) (supportedBrands s)
          (owner s) (brandList s) (events s) (aclCalls s).

Definition set_rate (k : string) (r : ExchangeRate) (s : State) : State :=
  mkState (accounts s) (<[k := r]> (exchangeRates s)) (supportedBrands s)
          (owner s) (brandList s) (events s) (aclCalls s).

Definition set_brand (b : string) (v : bool) (s : State) : State :=
  mkState (accounts s) (exchangeRates s) (<[b := v]> (supportedBrands s))
          (owner s) (brandList s) (events s) (aclCalls s).

Definition push_brand (b : string) (s : State) : State :=
  mkState (accounts s) (exchangeRates s) (supportedBrands s)
          (owner s) (brandList s ++ [b]) (events s) (aclCalls s).

Definition set_owner (o : address) (s : State) : State :=
  mkState (accounts s) (exchangeRates s) (supportedBrands s)
          o (brandList s) (events s) (aclCalls s).

Definition emit (e : Event) (s : State) : State :=
  mkState (accounts s) (exchangeRates s) (supportedBrands s)
          (owner s) (brandList s) (events s ++ [e]) (aclCalls s).

Definition acl (c : AclCall) (s : State) : State :=
  mkState (accounts s) (exchangeRates s) (supportedBrands s)
          (owner s) (brandList s) (events s) (aclCalls s ++ [c]).

(** Assignments to one field of [accounts[a]]; the other fields of the
    slot keep the value they had. *)
Definition set_encryptedPoints (a : address) (h : FHE.euint32) (s : State) : State :=
  let acct := account_at s a in
  set_account a (mkAccount h (publicPoints acct) (lastUpdated acct) (isActive acct)) s.

Definition set_publicPoints (a : address) (p : uint32) (s : State) : State :=
  let acct := account_at s a in
  set_account a (mkAccount (encryptedPoints acct) p (lastUpdated acct) (isActive acct)) s.

Definition set_lastUpdated (a : address) (t : uint256) (s : State) : State :=
  let acct := account_at s a in
  set_account a (mkAccount (encryptedPoints acct) (publicPoints acct) t (isActive acct)) s.

Definition set_isActive (a : address) (b : bool) (s : State) : State :=
  let acct := account_at s a in
  set_account a (mkAccount (encryptedPoints acct) (publicPoints acct) (lastUpdated acct) b) s.

(** *** constructor *)

Definition constructor (env : Env) : State :=
  mkState ∅ ∅ ∅ (msg_sender env) [] [] [].

(** *** modifier onlyOwner *)

Definition onlyOwner (env : Env) : M unit :=
  o ← read owner;
  require (bool_decide (msg_sender env = o)) "Not authorized".

(** *** createAccount *)

Definition createAccount (env : Env) (encryptedPoints_ : FHE.externalEuint32)
    (inputProof : bytes) (publicPoints_ : uint32) : M unit :=
  existing ← read (fun s => publicPoints (account_at s (msg_sender env)));
  require (existing =? 0) "Account already exists";;
  require (FHE.isInitialized (FHE.fromExternal encryptedPoints_ inputProof))
          "Invalid encrypted input";;
  write (set_account (msg_sender env)
           (mkAccount (FHE.fromExternal encryptedPoints_ inputProof)
                      publicPoints_ (block_timestamp env) true));;
  h ← read (fun s => encryptedPoints (account_at s (msg_sender env)));
  write (acl (AllowThis h));;
  h' ← read (fun s => encryptedPoints (account_at s (msg_sender env)));
  write (acl (MakePubliclyDecryptable h'));;
  write (emit (AccountCreated (msg_sender env) publicPoints_)).

(** *** addSupportedBrand *)

Definition addSupportedBrand (env : Env) (brandId : string) : M unit :=
  onlyOwner env;;
  present ← read (fun s => brand_at s brandId);
  require (negb present) "Brand already supported";;
  write (set_brand brandId true);;
  write (push_brand brandId).

(** *** setExchangeRate *)

Definition setExchangeRate (env : Env) (brandPair : string)
    (encryptedRate_ : FHE.externalEuint32) (rateProof : bytes)
    (publicRate_ : uint32) : M unit :=
  onlyOwner env;;
  supported ← read (fun s => brand_at s brandPair);
  require supported "Brand pair not supported";;
  require (FHE.isInitialized (FHE.fromExternal encryptedRate_ rateProof))
          "Invalid encrypted rate";;
  write (set_rate brandPair
           (mkRate (FHE.fromExternal encryptedRate_ rateProof)
                   publicRate_ (block_timestamp env)));;
  h ← read (fun s => encryptedRate (rate_at s brandPair));
  write (acl (AllowThis h));;
  h' ← read (fun s => encryptedRate (rate_at s brandPair));
  write (acl (MakePubliclyDecryptable h'));;
  write (emit (ExchangeRateUpdated brandPair publicRate_)).

(** *** convertPoints *)

(** [string(abi.encodePacked(fromBrand, "-", toBrand))] *)
Definition brandPairKey (fromBrand toBrand : string) : string :=
  fromBrand +:+ "-" +:+ toBrand.

Definition convertPoints (env : Env) (fromBrand toBrand : string)
    (amount : uint32) : M unit :=
  active ← read (fun s => isActive (account_at s (msg_sender env)));
  require active "Account inactive";;
  supported ← read (fun s => brand_at s fromBrand && brand_at s toBrand);
  require supported "Unsupported brand";;
  require (0 <? amount) "Invalid amount";;
  let brandPair := brandPairKey fromBrand toBrand in
  rate ← read (fun s => publicRate (rate_at s brandPair));
  require (0 <? rate) "Exchange rate not set";;
  encRate ← read (fun s => encryptedRate (rate_at s brandPair));
  let convertedAmount := FHE.mul (FHE.fromU32 amount) encRate in
  balance ← read (fun s => encryptedPoints (account_at s (msg_sender env)));
  write (set_encryptedPoints (msg_sender env) (FHE.sub balance (FHE.fromU32 amount)));;
  write (set_lastUpdated (msg_sender env) (block_timestamp env));;
  let newTargetBalance := convertedAmount in
  debited ← read (fun s => encryptedPoints (account_at s (msg_sender env)));
  write (set_encryptedPoints (msg_sender env) (FHE.add debited newTargetBalance));;
  write (emit (PointsConverted (msg_sender env) fromBrand toBrand amount)).

(** The four assignments and the event of a conversion that passed its
    checks, in program order. *)
Definition converted (env : Env) (fromBrand toBrand : string) (amount : uint32)
    (s : State) : State :=
  let a := msg_sender env in
  let encRate := encryptedRate (rate_at s (brandPairKey fromBrand toBrand)) in
  let convertedAmount := FHE.mul (FHE.fromU32 amount) encRate in
  let s1 := set_encryptedPoints a
              (FHE.sub (encryptedPoints (account_at s a)) (FHE.fromU32 amount)) s in
  let s2 := set_lastUpdated a (block_timestamp env) s1 in
  let s3 := set_encryptedPoints a
              (FHE.add (encryptedPoints (account_at s2 a)) convertedAmount) s2 in
  emit (PointsConverted a fromBrand toBrand amount) s3.

(** The conditions [convertPoints] requires, as one boolean. *)
Definition convertible (env : Env) (fromBrand toBrand : string) (amount : uint32)
    (s : State) : bool :=
  isActive (account_at s (msg_sender env))
  && (brand_at s fromBrand && brand_at s toBrand)
  && (0 <? amount)
  && (0 <? publicRate (rate_at s (brandPairKey fromBrand toBrand))).

(** *** Views *)

Definition getAccountBalance (user : address) : M (FHE.euint32 * uint32) :=
  active ← read (fun s => isActive (account_at s user));
  require active "Account not found";;
  read (fun s => (encryptedPoints (account_at s user), publicPoints (account_at s user))).

Definition getExchangeRate (brandPair : string) : M (FHE.euint32 * uint32) :=
  rate ← read (fun s => publicRate (rate_at s brandPair));
  require (0 <? rate) "Rate not found";;
  read (fun s => (encryptedRate (rate_at s brandPair), publicRate (rate_at s brandPair))).

Definition getSupportedBrands : M (list string) := read brandList.

Definition isContractAvailable : bool := true.

(** *** deactivateAccount, updatePublicPoints, transferOwnership *)

Definition deactivateAccount (env : Env) : M unit :=
  active ← read (fun s => isActive (account_at s (msg_sender env)));
  require active "Account not active";;
  write (set_isActive (msg_sender env) false).

Definition updatePublicPoints (env : Env) (newPoints : uint32) : M unit :=
  active ← read (fun s => isActive (account_at s (msg_sender env)));
  require active "Account not active";;
  write (set_publicPoints (msg_sender env) newPoints);;
  write (set_lastUpdated (msg_sender env) (block_timestamp env)).

Definition transferOwnership (env : Env) (newOwner : address) : M unit :=
  onlyOwner env;;
  require (negb (newOwner =? 0)) "Invalid address";;
  write (set_owner newOwner).

(** *** What a transaction leaves behind

    The storage after the call: the new storage when the call returns, the
    storage before the call when it reverts. *)
Definition commit {A} (m : M A) (s : State) : State :=
  match m s with
  | Done _ s' => s'
  | Reverted _ _ => s
  end.

(** *** Transactions on a deployed contract

    The external functions that write to storage, and the storages that a
    deployment can reach through them. *)
Inductive Call : Type :=
  | CreateAccount (encryptedPoints_ : FHE.externalEuint32) (inputProof : bytes)
      (publicPoints_ : uint32)
  | AddSupportedBrand (brandId : string)
  | SetExchangeRate (brandPair : string) (encryptedRate_ : FHE.externalEuint32)
      (rateProof : bytes) (publicRate_ : uint32)
  | ConvertPoints (fromBrand toBrand : string) (amount : uint32)
  | DeactivateAccount
  | UpdatePublicPoints (newPoints : uint32)
  | TransferOwnership (newOwner : address).

Definition exec (env : Env) (c : Call) : M unit :=
  match c with
  | CreateAccount h p pts => createAccount env h p pts
  | AddSupportedBrand brandId => addSupportedBrand env brandId
  | SetExchangeRate brandPair h p r => setExchangeRate env brandPair h p r
  | ConvertPoints fromBrand toBrand amount => convertPoints env fromBrand toBrand amount
  | DeactivateAccount => deactivateAccount env
  | UpdatePublicPoints newPoints => updatePublicPoints env newPoints
  | TransferOwnership newOwner => transferOwnership env newOwner
  end.

Inductive reachable : State -> Prop :=
  | reachable_deployed env : reachable (constructor env)
  | reachable_call env c s : reachable s -> reachable (commit (exec env c) s).

(** The key of every stored rate is itself in the brand registry. *)
Definition rate_keys_registered (s : State) : Prop :=
  forall k, is_Some (exchangeRates s !! k) -> brand_at s k = true.

(** Calls applied in the order the chain serialises them, each by its own
    caller at its own block time. *)
Definition run_calls (calls : list (Env * Call)) (s : State) : State :=
  foldl (fun s' ec => commit (exec (fst ec) (snd ec)) s') s calls.

(** What a reader of the event log knows about the rate of key [k]: the
    mirror carried by the latest ExchangeRateUpdated event for [k]. *)
Definition rate_event_for (k : string) (e : Event) : option uint32 :=
  match e with
  | ExchangeRateUpdated brandPair newRate =>
      if decide (brandPair = k) then Some newRate else None
  | AccountCreated _ _ => None
  | PointsConverted _ _ _ _ => None
  end.

Definition last_rate_event (k : string) (log : list Event) : option uint32 :=
  last (omap (rate_event_for k) log).

(** Whether the log holds an AccountCreated event for [user]. *)
Definition announced (user : address) (log : list Event) : Prop :=
  exists initialPoints, AccountCreated user initialPoints ∈ log.

(** The call reverted with a reason that stands for error [e], and the
    storage at the point of failure was [s]. *)
Definition fails_with {A} (o : outcome A) (e : Error) (s : State) : Prop :=
  exists reason, o = Reverted reason s /\ error_of reason = Some e.

End Operations.

(** ** A transparent FHE scheme

    Handles wrap their plaintext; [None] is the uninitialised handle.  An
    external input is accepted when it comes with a non-empty proof. *)

Module PlainFHE.

Definition plain (h : option Z) : Z := default 0 h.

Definition fromExternal (x : Z) (proof : bytes) : option Z :=
  match proof with
  | [] => None
  | _ :: _ => Some (x mod two32)
  end.

Definition isInitialized (h : option Z) : bool :=
  match h with Some _ => true | None => false end.

Definition fromU32 (n : uint32) : option Z := Some (n mod two32).
Definition add (a b : option Z) : option Z := Some ((plain a + plain b) mod two32).
Definition sub (a b : option Z) : option Z := Some ((plain a - plain b) mod two32).
Definition mul (a b : option Z) : option Z := Some ((plain a * plain b) mod two32).

Definition scheme : FHE.Scheme :=
  {| FHE.euint32 := option Z;
     FHE.externalEuint32 := Z;
     FHE.uninitialized := None;
     FHE.fromExternal := fromExternal;
     FHE.isInitialized := isInitialized;
     FHE.fromU32 := fromU32;
     FHE.add := add;
     FHE.sub := sub;
     FHE.mul := mul;
     FHE.decrypt := plain;
     FHE.decrypt_fromU32 := fun _ => eq_refl;
     FHE.decrypt_add := fun _ _ => eq_refl;
     FHE.decrypt_sub := fun _ _ => eq_refl;
     FHE.decrypt_mul := fun _ _ => eq_refl |}.

End PlainFHE.

(** ** The decryption bridge

    [App.tsx] drives the decrypt-and-verify cycle through [verifyDecryption],
    [getBusinessData] and [getEncryptedValue] of a deployed contract; the
    Solidity source of that entry point is not part of
    [contracts/PointsSwap_FHE.sol]. *)

Module DecryptionOracleBridge.

(** Modelled from the spec: the state machine of a decryption record, whose
    contract-side code is missing.  Section 4.6 gives the states
    Unverified, PendingProof and Verified; section 3 attaches the permanent
    cleartext value to the Verified state. *)
Inductive RecordState : Type :=
  | Unverified
  | PendingProof
  | Verified (cleartext : list Z).

(** Modelled from the spec: the DecryptionRecord of section 3, whose
    contract-side declaration is missing: the ciphertext handles requested,
    the requester and the state. *)
Record DecryptionRecord : Type := mkRecord {
  handles : list Z;
  requester : address;
  state : RecordState
}.

(** Modelled from the spec: the failure mode of [verifyDecryption] listed
    in section 6; the contract-side declaration is missing. *)
Inductive VerifyError : Type :=
  | InvalidDecryptionProof.

Section Bridge.

(** Modelled from the spec: the trusted verifier configured for the
    deployment, which is outside the repository.  It decides whether a proof
    binds the handles and the cleartext values together (section 9,
    "pluggable verifier interface"). *)
Variable trustedVerifier : list Z -> list Z -> bytes -> bool.

(** Modelled from the spec: requesting decryption, whose contract-side code
    is missing.  "From Unverified, a caller may request decryption"; the
    record then awaits the proof. *)
Definition request (r : DecryptionRecord) : DecryptionRecord :=
  match state r with
  | Unverified => mkRecord (handles r) (requester r) PendingProof
  | PendingProof => r
  | Verified _ => r
  end.

(** Modelled from the spec: [verify(recordId, cleartextValues, proof)] on one
    record, whose contract-side code is missing.  A Verified record
    short-circuits and returns the stored value; otherwise the proof is
    validated: on success the record becomes Verified and keeps the
    cleartext, on failure the call fails with InvalidDecryptionProof and the
    record stays as it was. *)
Definition verify (cleartextValues : list Z) (proof : bytes) (r : DecryptionRecord)
    : (VerifyError + list Z) * DecryptionRecord :=
  match state r with
  | Verified stored => (inr stored, r)
  | Unverified | PendingProof =>
      if trustedVerifier (handles r) cleartextValues proof
      then (inr cleartextValues, mkRecord (handles r) (requester r) (Verified cleartextValues))
      else (inl InvalidDecryptionProof, r)
  end.

(** Modelled from the spec: [requestDecryption] on the persisted map
    recordId -> DecryptionRecord (section 6), whose contract-side code is
    missing.  A call that names no record leaves the map as it is. *)
Definition requestDecryption (recordId : string)
    (records : gmap string DecryptionRecord) : gmap string DecryptionRecord :=
  match records !! recordId with
  | Some r => <[recordId := request r]> records
  | None => records
  end.

(** Modelled from the spec: [verifyDecryption] on the persisted map
    recordId -> DecryptionRecord (section 6), whose contract-side code is
    missing: [verify] applied to the record of that name.  A call that names
    no record returns nothing and leaves the map as it is. *)
Definition verifyDecryption (recordId : string) (cleartextValues : list Z)
    (proof : bytes) (records : gmap string DecryptionRecord)
    : option (VerifyError + list Z) * gmap string DecryptionRecord :=
  match records !! recordId with
  | Some r =>
      let '(res, r') := verify cleartextValues proof r in
      (Some res, <[recordId := r']> records)
  | None => (None, records)
  end.

(** Modelled from the spec: the operations that section 6 lists for
    decryption records, whose contract-side code is missing. *)
Inductive Op : Type :=
  | RequestDecryption (recordId : string)
  | VerifyDecryption (recordId : string) (cleartextValues : list Z) (proof : bytes).

(** Modelled from the spec: the effect of one bridge operation on the
    persisted records, whose contract-side code is missing. *)
Definition step (records : gmap string DecryptionRecord) (op : Op)
    : gmap string DecryptionRecord :=
  match op with
  | RequestDecryption recordId => requestDecryption recordId records
  | VerifyDecryption recordId cleartextValues proof =>
      snd (verifyDecryption recordId cleartextValues proof records)
  end.

(** Modelled from the spec: bridge operations applied in the order the
    ledger serialises them (section 5). *)
Definition run (ops : list Op) (records : gmap string DecryptionRecord)
    : gmap string DecryptionRecord :=
  foldl step records ops.

End Bridge.

End DecryptionOracleBridge.

(** ** Concrete ledgers

    Small deployments over the transparent scheme, used to evaluate the
    contract on explicit inputs. *)

Module Ledger.

#[local] Existing Instance PlainFHE.scheme.

Definition deployer : address := 1.
Definition alice : address := 2.
Definition mallory : address := 3.

Definition proof : bytes := [Byte.x01].

Definition at_time (who : address) (t : uint256) : Env := mkEnv who t.

(** A freshly deployed contract. *)
Definition deployed : State := constructor (at_time deployer 1000).

(** The owner registers brands "A" and "B" only. *)
Definition two_brands : State :=
  commit (addSupportedBrand (at_time deployer 1002) "B")
    (commit (addSupportedBrand (at_time deployer 1001) "A") deployed).

(** The owner registers the string "A-B" only. *)
Definition pair_only : State :=
  commit (addSupportedBrand (at_time deployer 1001) "A-B") deployed.

(** Brands "A", "B" and the string "A-B" are registered, and the rate stored
    under "A-B" is 2 (ciphertext and mirror). *)
Definition with_rate : State :=
  commit (setExchangeRate (at_time deployer 1004) "A-B" 2 proof 2)
    (commit (addSupportedBrand (at_time deployer 1003) "A-B") two_brands).

(** Alice opens an account with 100 points (ciphertext and mirror). *)
Definition with_account : State :=
  commit (createAccount (at_time alice 1005) 100 proof 100) with_rate.

(** Alice opens an account with ciphertext 100 and mirror 0. *)
Definition zero_mirror : State :=
  commit (createAccount (at_time alice 1005) 100 proof 0) deployed.

(** Alice has deactivated her 100-point account. *)
Definition deactivated : State :=
  commit (deactivateAccount (at_time alice 1006)) with_account.

(** A record that was verified with cleartext 150, and a verifier that
    accepts every submission. *)
Definition verified_record : DecryptionOracleBridge.DecryptionRecord :=
  DecryptionOracleBridge.mkRecord [42] alice (DecryptionOracleBridge.Verified [150]).

Definition records : gmap string DecryptionOracleBridge.DecryptionRecord :=
  {[ "swap-1" := verified_record ]}.

Definition accept_all (handles cleartextValues : list Z) (proof : bytes) : bool := true.

(** Calls by Mallory and by the owner, none by Alice. *)
Definition calls_by_others : list (Env * Call) :=
  [ (at_time mallory 1010, CreateAccount 5 proof 5);
    (at_time mallory 1011, ConvertPoints "A" "B" 1);
    (at_time deployer 1012, SetExchangeRate "A-B" 3 proof 3);
    (at_time mallory 1013, DeactivateAccount) ].

(** Calls by Mallory, who is not the owner. *)
Definition calls_by_mallory : list (Env * Call) :=
  [ (at_time mallory 1010, AddSupportedBrand "M");
    (at_time mallory 1011, SetExchangeRate "A-B" 9 proof 9);
    (at_time mallory 1012, TransferOwnership mallory);
    (at_time mallory 1013, CreateAccount 5 proof 5) ].

(** What Alice and the owner try after Alice has deactivated her account. *)
Definition calls_after_deactivation : list (Env * Call) :=
  [ (at_time alice 1010, CreateAccount 7 proof 7);
    (at_time alice 1011, UpdatePublicPoints 0);
    (at_time alice 1012, ConvertPoints "A" "B" 1);
    (at_time deployer 1013, SetExchangeRate "A-B" 3 proof 3);
    (at_time alice 1014, DeactivateAccount) ].

(** Alice has converted 50 points from "A" to "B". *)
Definition converted_once : State :=
  commit (convertPoints (at_time alice 1007) "A" "B" 50) with_account.

End Ledger.

(** ** Basic facts about storage reads and writes *)

Section StorageFacts.

Context {fhe : FHE.Scheme}.

Lemma account_at_set_account_eq a acct s :
  account_at (set_account a acct s) a = acct.
Proof. unfold account_at, set_account; simpl. by rewrite lookup_insert_eq. Qed.

Lemma accounts_set_account_ne a b acct s :
  a <> b -> accounts (set_account a acct s) !! b = accounts s !! b.
Proof. intros Hne. unfold set_account; simpl. by rewrite lookup_insert_ne. Qed.

Lemma account_at_emit e s a : account_at (emit e s) a = account_at s a.
Proof. reflexivity. Qed.

Lemma account_at_acl c s a : account_at (acl c s) a = account_at s a.
Proof. reflexivity. Qed.

Lemma rate_at_acl c s k : rate_at (acl c s) k = rate_at s k.
Proof. reflexivity. Qed.

Lemma rate_at_set_rate_eq k r s : rate_at (set_rate k r s) k = r.
Proof. unfold rate_at, set_rate; simpl. by rewrite lookup_insert_eq. Qed.

(** A modular sum in which the summands were reduced first. *)
Lemma mod32_debit_credit b a r :
  (((b - a mod two32) mod two32) + ((a mod two32) * r) mod two32) mod two32
  = (b - a + a * r) mod two32.
Proof.
  assert (Hpos : two32 <> 0) by (unfold two32; lia).
  rewrite <- Z.add_mod by exact Hpos.
  pose proof (Z.div_mod a two32 Hpos) as Hdiv.
  replace (b - a mod two32 + a mod two32 * r)
    with ((b - a + a * r) + ((a / two32) * (1 - r)) * two32).
  - by apply Z.mod_add.
  - set (q := a / two32) in *. set (m := a mod two32) in *.
    rewrite Hdiv. ring.
Qed.

End StorageFacts.

(** ** convertPoints *)

Section ConvertPoints.

Context {fhe : FHE.Scheme}.

Lemma convertPoints_unfold env fromBrand toBrand amount s :
  convertPoints env fromBrand toBrand amount s =
    if negb (isActive (account_at s (msg_sender env))) then
      Reverted "Account inactive" s
    else if negb (brand_at s fromBrand && brand_at s toBrand) then
      Reverted "Unsupported brand" s
    else if negb (0 <? amount) then
      Reverted "Invalid amount" s
    else if negb (0 <? publicRate (rate_at s (brandPairKey fromBrand toBrand))) then
      Reverted "Exchange rate not set" s
    else Done tt (converted env fromBrand toBrand amount s).
Proof.
  unfold convertPoints, mbind, M_bind, read, require, write; simpl.
  destruct (isActive _); simpl; [|done].
  destruct (brand_at s fromBrand && brand_at s toBrand); simpl; [|done].
  destruct (0 <? amount); simpl; [|done].
  destruct (0 <? publicRate _); simpl; done.
Qed.

Lemma convertPoints_success env fromBrand toBrand amount s :
  convertible env fromBrand toBrand amount s = true ->
  convertPoints env fromBrand toBrand amount s
  = Done tt (converted env fromBrand toBrand amount s).
Proof.
  unfold convertible. rewrite convertPoints_unfold.
  intros H. repeat (apply andb_prop in H as [H ?]).
  by repeat match goal with Hc : _ = true |- _ => rewrite Hc; clear Hc end.
Qed.

Lemma convertPoints_done_inv env fromBrand toBrand amount s u s' :
  convertPoints env fromBrand toBrand amount s = Done u s' ->
  convertible env fromBrand toBrand amount s = true
  /\ s' = converted env fromBrand toBrand amount s.
Proof.
  unfold convertible. rewrite convertPoints_unfold.
  destruct (isActive _); simpl; [|done].
  destruct (brand_at s fromBrand && brand_at s toBrand); simpl; [|done].
  destruct (0 <? amount); simpl; [|done].
  destruct (0 <? publicRate _); simpl; [|done].
  by intros [= <-].
Qed.

Lemma converted_balance env fromBrand toBrand amount s :
  encryptedPoints (account_at (converted env fromBrand toBrand amount s) (msg_sender env))
  = FHE.add (FHE.sub (encryptedPoints (account_at s (msg_sender env))) (FHE.fromU32 amount))
            (FHE.mul (FHE.fromU32 amount)
                     (encryptedRate (rate_at s (brandPairKey fromBrand toBrand)))).
Proof.
  unfold converted, set_encryptedPoints, set_lastUpdated.
  rewrite account_at_emit.
  by rewrite !account_at_set_account_eq.
Qed.

Lemma converted_balance_plain env fromBrand toBrand amount s :
  FHE.decrypt
    (encryptedPoints (account_at (converted env fromBrand toBrand amount s) (msg_sender env)))
  = (FHE.decrypt (encryptedPoints (account_at s (msg_sender env))) - amount
     + amount * FHE.decrypt (encryptedRate (rate_at s (brandPairKey fromBrand toBrand))))
    mod two32.
Proof.
  rewrite converted_balance.
  rewrite FHE.decrypt_add, FHE.decrypt_sub, FHE.decrypt_mul, !FHE.decrypt_fromU32.
  apply mod32_debit_credit.
Qed.

End ConvertPoints.

(** ** Claims about the ledger *)

Section Claims.

Context {fhe : FHE.Scheme}.

Ltac run_tx :=
  unfold createAccount, addSupportedBrand, setExchangeRate, getAccountBalance,
    getExchangeRate, deactivateAccount, updatePublicPoints, transferOwnership,
    onlyOwner, mbind, M_bind, read, require, write; simpl.

Ltac failed := eexists; split; reflexivity.

(** *** Guards *)

Lemma onlyOwner_other env s :
  msg_sender env <> owner s -> onlyOwner env s = Reverted "Not authorized" s.
Proof.
  intros Hne. run_tx. by rewrite bool_decide_eq_false_2.
Qed.

Lemma onlyOwner_owner env s :
  msg_sender env = owner s -> onlyOwner env s = Done tt s.
Proof.
  intros Heq. run_tx. by rewrite bool_decide_eq_true_2.
Qed.

(** [createAccount] takes a non-zero mirror as the sign that the account
    exists. *)
Lemma createAccount_nonzero_mirror env h p pts s :
  publicPoints (account_at s (msg_sender env)) <> 0 ->
  fails_with (createAccount env h p pts s) AccountAlreadyExists s.
Proof.
  intros Hne. run_tx.
  destruct (Z.eqb_spec (publicPoints (account_at s (msg_sender env))) 0); [done|].
  simpl. failed.
Qed.

Lemma createAccount_zero_mirror env h p pts s :
  publicPoints (account_at s (msg_sender env)) = 0 ->
  FHE.isInitialized (FHE.fromExternal h p) = true ->
  exists s', createAccount env h p pts s = Done tt s'
    /\ account_at s' (msg_sender env)
       = mkAccount (FHE.fromExternal h p) pts (block_timestamp env) true.
Proof.
  intros Hzero Hinit. run_tx. rewrite Hzero, Hinit. simpl.
  eexists; split; [reflexivity|].
  rewrite account_at_emit, !account_at_acl.
  apply account_at_set_account_eq.
Qed.

(** [setExchangeRate] looks its argument up in the brand registry as it
    is. *)
Lemma setExchangeRate_unregistered_key env brandPair h p r s :
  msg_sender env = owner s ->
  brand_at s brandPair = false ->
  fails_with (setExchangeRate env brandPair h p r s) BrandPairUnsupported s.
Proof.
  intros Hown Hno.
  unfold setExchangeRate, mbind, M_bind at 1. rewrite onlyOwner_owner by done.
  run_tx. rewrite Hno. simpl. failed.
Qed.

Lemma setExchangeRate_registered_key env brandPair h p r s :
  msg_sender env = owner s ->
  brand_at s brandPair = true ->
  FHE.isInitialized (FHE.fromExternal h p) = true ->
  exists s', setExchangeRate env brandPair h p r s = Done tt s'
    /\ rate_at s' brandPair = mkRate (FHE.fromExternal h p) r (block_timestamp env)
    /\ supportedBrands s' = supportedBrands s.
Proof.
  intros Hown Hyes Hinit.
  unfold setExchangeRate, mbind, M_bind at 1. rewrite onlyOwner_owner by done.
  run_tx. rewrite Hyes, Hinit. simpl.
  eexists; split; [reflexivity|]. split; [|reflexivity].
  unfold rate_at; simpl. by rewrite lookup_insert_eq.
Qed.

(** *** The functions as decision lists *)

Lemma createAccount_unfold env h p pts s :
  createAccount env h p pts s =
    if negb (publicPoints (account_at s (msg_sender env)) =? 0) then
      Reverted "Account already exists" s
    else if negb (FHE.isInitialized (FHE.fromExternal h p)) then
      Reverted "Invalid encrypted input" s
    else
      Done tt
        (emit (AccountCreated (msg_sender env) pts)
           (acl (MakePubliclyDecryptable (FHE.fromExternal h p))
              (acl (AllowThis (FHE.fromExternal h p))
                 (set_account (msg_sender env)
                    (mkAccount (FHE.fromExternal h p) pts (block_timestamp env) true) s)))).
Proof.
  run_tx.
  destruct (publicPoints _ =? 0); simpl; [|done].
  destruct (FHE.isInitialized _); simpl; [|done].
  by rewrite !account_at_acl, !account_at_set_account_eq.
Qed.

Lemma addSupportedBrand_unfold env brandId s :
  addSupportedBrand env brandId s =
    if negb (bool_decide (msg_sender env = owner s)) then
      Reverted "Not authorized" s
    else if brand_at s brandId then
      Reverted "Brand already supported" s
    else Done tt (push_brand brandId (set_brand brandId true s)).
Proof.
  run_tx.
  destruct (bool_decide _); simpl; [|done].
  destruct (brand_at s brandId); simpl; done.
Qed.

Lemma setExchangeRate_unfold env brandPair h p r s :
  setExchangeRate env brandPair h p r s =
    if negb (bool_decide (msg_sender env = owner s)) then
      Reverted "Not authorized" s
    else if negb (brand_at s brandPair) then
      Reverted "Brand pair not supported" s
    else if negb (FHE.isInitialized (FHE.fromExternal h p)) then
      Reverted "Invalid encrypted rate" s
    else
      Done tt
        (emit (ExchangeRateUpdated brandPair r)
           (acl (MakePubliclyDecryptable (FHE.fromExternal h p))
              (acl (AllowThis (FHE.fromExternal h p))
                 (set_rate brandPair
                    (mkRate (FHE.fromExternal h p) r (block_timestamp env)) s)))).
Proof.
  run_tx.
  destruct (bool_decide _); simpl; [|done].
  destruct (brand_at s brandPair); simpl; [|done].
  destruct (FHE.isInitialized _); simpl; [|done].
  by rewrite !rate_at_acl, !rate_at_set_rate_eq.
Qed.

Lemma deactivateAccount_unfold env s :
  deactivateAccount env s =
    if negb (isActive (account_at s (msg_sender env))) then
      Reverted "Account not active" s
    else Done tt (set_isActive (msg_sender env) false s).
Proof. run_tx. destruct (isActive _); simpl; done. Qed.

Lemma updatePublicPoints_unfold env newPoints s :
  updatePublicPoints env newPoints s =
    if negb (isActive (account_at s (msg_sender env))) then
      Reverted "Account not active" s
    else
      Done tt (set_lastUpdated (msg_sender env) (block_timestamp env)
                 (set_publicPoints (msg_sender env) newPoints s)).
Proof. run_tx. destruct (isActive _); simpl; done. Qed.

Lemma transferOwnership_unfold env newOwner s :
  transferOwnership env newOwner s =
    if negb (bool_decide (msg_sender env = owner s)) then
      Reverted "Not authorized" s
    else if newOwner =? 0 then
      Reverted "Invalid address" s
    else Done tt (set_owner newOwner s).
Proof.
  run_tx.
  destruct (bool_decide _); simpl; [|done].
  destruct (newOwner =? 0); simpl; done.
Qed.

(** *** What every reachable storage satisfies *)

Ltac exec_cases c :=
  destruct c as [h p pts | brandId | brandPair h p r | fromBrand toBrand amount
                | | newPoints | newOwner];
  unfold commit; simpl exec;
  rewrite ?createAccount_unfold, ?addSupportedBrand_unfold, ?setExchangeRate_unfold,
    ?convertPoints_unfold, ?deactivateAccount_unfold, ?updatePublicPoints_unfold,
    ?transferOwnership_unfold;
  repeat (match goal with |- context [if ?c then _ else _] => destruct c eqn:? end; simpl).

Lemma exec_registry_grows env c s k :
  brand_at s k = true -> brand_at (commit (exec env c) s) k = true.
Proof.
  intros Hk. exec_cases c; try done.
  unfold brand_at, set_brand; simpl.
  destruct (decide (brandId = k)) as [->|Hne].
  - by rewrite lookup_insert_eq.
  - by rewrite lookup_insert_ne.
Qed.

Lemma exec_rate_keys env c s k :
  is_Some (exchangeRates (commit (exec env c) s) !! k) ->
  is_Some (exchangeRates s !! k) \/ brand_at s k = true.
Proof.
  exec_cases c; try tauto.
  destruct (decide (brandPair = k)) as [->|Hne].
  - intros _. right. by destruct (brand_at s k).
  - rewrite lookup_insert_ne by done. tauto.
Qed.

Lemma reachable_rate_keys_registered s :
  reachable s -> rate_keys_registered s.
Proof.
  induction 1 as [env | env c s Hs IH]; intros k Hk.
  - simpl in Hk. rewrite lookup_empty in Hk. by destruct Hk.
  - apply exec_registry_grows.
    destruct (exec_rate_keys env c s k Hk) as [Hold | Hreg]; [by apply IH | done].
Qed.

(** *** C3 *)

(** C3: for an active account with encrypted balance [b], registered brands
    [fromBrand] and [toBrand], a positive amount [a] and a rate configured
    under the key of the pair with ciphertext [r], [convertPoints] returns
    and the account's encrypted balance becomes [(b - a) + a * r], computed
    homomorphically; its plaintext is [(b - a + a * r) mod 2^32], and with
    balance 100, rate 2 and amount 50 it is exactly 150. *)
Theorem convertPoints_balance_update env fromBrand toBrand amount s :
  isActive (account_at s (msg_sender env)) = true ->
  brand_at s fromBrand = true ->
  brand_at s toBrand = true ->
  0 < amount ->
  0 < publicRate (rate_at s (brandPairKey fromBrand toBrand)) ->
  exists s',
    convertPoints env fromBrand toBrand amount s = Done tt s'
    /\ encryptedPoints (account_at s' (msg_sender env))
       = FHE.add
           (FHE.sub (encryptedPoints (account_at s (msg_sender env))) (FHE.fromU32 amount))
           (FHE.mul (FHE.fromU32 amount)
                    (encryptedRate (rate_at s (brandPairKey fromBrand toBrand))))
    /\ FHE.decrypt (encryptedPoints (account_at s' (msg_sender env)))
       = (FHE.decrypt (encryptedPoints (account_at s (msg_sender env))) - amount
          + amount * FHE.decrypt (encryptedRate (rate_at s (brandPairKey fromBrand toBrand))))
         mod two32
    /\ (FHE.decrypt (encryptedPoints (account_at s (msg_sender env))) = 100 ->
        FHE.decrypt (encryptedRate (rate_at s (brandPairKey fromBrand toBrand))) = 2 ->
        amount = 50 ->
        FHE.decrypt (encryptedPoints (account_at s' (msg_sender env))) = 150).
Proof.
  intros Hact Hfrom Hto Hamt Hrate.
  exists (converted env fromBrand toBrand amount s).
  split; [|split; [|split]].
  - apply convertPoints_success. unfold convertible.
    rewrite Hact, Hfrom, Hto. simpl.
    apply andb_true_intro; split; by apply Z.ltb_lt.
  - apply converted_balance.
  - apply converted_balance_plain.
  - intros Hb Hr Ha. rewrite converted_balance_plain, Hb, Hr, Ha. reflexivity.
Qed.

(** *** C4 *)

(** C4: [convertPoints] checks, in this order, that the caller's account is
    active (AccountInactive), that both brands are registered
    (BrandPairUnsupported), that the amount is positive (InvalidAmount) and
    that a rate is configured under the key of the pair (RateNotSet).  The
    first check that fails decides the error, and whenever the call reverts
    nothing has been written: the storage at the point of failure, and so
    the storage after the transaction, is the storage before the call. *)
Theorem convertPoints_check_order env fromBrand toBrand amount s :
  (isActive (account_at s (msg_sender env)) = false ->
     fails_with (convertPoints env fromBrand toBrand amount s) AccountInactive s)
  /\ (isActive (account_at s (msg_sender env)) = true ->
      brand_at s fromBrand && brand_at s toBrand = false ->
      fails_with (convertPoints env fromBrand toBrand amount s) BrandPairUnsupported s)
  /\ (isActive (account_at s (msg_sender env)) = true ->
      brand_at s fromBrand && brand_at s toBrand = true ->
      amount <= 0 ->
      fails_with (convertPoints env fromBrand toBrand amount s) InvalidAmount s)
  /\ (isActive (account_at s (msg_sender env)) = true ->
      brand_at s fromBrand && brand_at s toBrand = true ->
      0 < amount ->
      publicRate (rate_at s (brandPairKey fromBrand toBrand)) <= 0 ->
      fails_with (convertPoints env fromBrand toBrand amount s) RateNotSet s)
  /\ (forall reason s',
      convertPoints env fromBrand toBrand amount s = Reverted reason s' ->
      s' = s
      /\ commit (convertPoints env fromBrand toBrand amount) s = s
      /\ encryptedPoints (account_at s' (msg_sender env))
         = encryptedPoints (account_at s (msg_sender env))).
Proof.
  assert (Hrev : forall reason s',
            convertPoints env fromBrand toBrand amount s = Reverted reason s' -> s' = s).
  { intros reason s'. rewrite convertPoints_unfold.
    repeat (case_match; simpl); congruence. }
  split; [|split; [|split; [|split]]].
  - intros Hact. rewrite convertPoints_unfold, Hact. simpl. failed.
  - intros Hact Hreg. rewrite convertPoints_unfold, Hact, Hreg. simpl. failed.
  - intros Hact Hreg Hamt. rewrite convertPoints_unfold, Hact, Hreg. simpl.
    destruct (Z.ltb_spec 0 amount); [lia|]. simpl. failed.
  - intros Hact Hreg Hamt Hrate. rewrite convertPoints_unfold, Hact, Hreg. simpl.
    destruct (Z.ltb_spec 0 amount); [|lia]. simpl.
    destruct (Z.ltb_spec 0 (publicRate (rate_at s (brandPairKey fromBrand toBrand))));
      [lia|]. simpl. failed.
  - intros reason s' Hrun. pose proof (Hrev _ _ Hrun) as ->.
    unfold commit. rewrite Hrun. done.
Qed.

(** *** C7 *)

(** C7: when the caller is not the current owner, [addSupportedBrand] and
    [setExchangeRate] fail with Unauthorized before anything is written: the
    brand registry ([supportedBrands], [brandList]) and the rate table
    ([exchangeRates]) are as they were. *)
Theorem non_owner_unauthorized env s brandId brandPair encRate rateProof pubRate :
  msg_sender env <> owner s ->
  fails_with (addSupportedBrand env brandId s) Unauthorized s
  /\ fails_with (setExchangeRate env brandPair encRate rateProof pubRate s) Unauthorized s
  /\ supportedBrands (commit (addSupportedBrand env brandId) s) = supportedBrands s
  /\ brandList (commit (addSupportedBrand env brandId) s) = brandList s
  /\ exchangeRates (commit (addSupportedBrand env brandId) s) = exchangeRates s
  /\ supportedBrands (commit (setExchangeRate env brandPair encRate rateProof pubRate) s)
     = supportedBrands s
  /\ brandList (commit (setExchangeRate env brandPair encRate rateProof pubRate) s)
     = brandList s
  /\ exchangeRates (commit (setExchangeRate env brandPair encRate rateProof pubRate) s)
     = exchangeRates s.
Proof.
  intros Hne.
  assert (Hadd : addSupportedBrand env brandId s = Reverted "Not authorized" s).
  { unfold addSupportedBrand, mbind, M_bind at 1. by rewrite onlyOwner_other. }
  assert (Hset : setExchangeRate env brandPair encRate rateProof pubRate s
                 = Reverted "Not authorized" s).
  { unfold setExchangeRate, mbind, M_bind at 1. by rewrite onlyOwner_other. }
  unfold commit. rewrite Hadd, Hset.
  repeat split; try reflexivity; failed.
Qed.

(** *** C8 *)

(** C8: [deactivateAccount] fails with AccountNotActive when the caller's
    account is inactive.  Otherwise it returns, the caller's account is
    inactive afterwards, its encrypted balance, mirror and timestamp are the
    ones it had, every other account is as it was, and so are the rate table,
    the brand registry, the owner and the logs. *)
Theorem deactivateAccount_frame env s :
  (isActive (account_at s (msg_sender env)) = false ->
     fails_with (deactivateAccount env s) AccountNotActive s)
  /\ (isActive (account_at s (msg_sender env)) = true ->
      exists s',
        deactivateAccount env s = Done tt s'
        /\ isActive (account_at s' (msg_sender env)) = false
        /\ encryptedPoints (account_at s' (msg_sender env))
           = encryptedPoints (account_at s (msg_sender env))
        /\ publicPoints (account_at s' (msg_sender env))
           = publicPoints (account_at s (msg_sender env))
        /\ lastUpdated (account_at s' (msg_sender env))
           = lastUpdated (account_at s (msg_sender env))
        /\ (forall other, other <> msg_sender env ->
              accounts s' !! other = accounts s !! other)
        /\ exchangeRates s' = exchangeRates s
        /\ supportedBrands s' = supportedBrands s
        /\ brandList s' = brandList s
        /\ owner s' = owner s
        /\ events s' = events s
        /\ aclCalls s' = aclCalls s).
Proof.
  split; intros Hact; run_tx; rewrite Hact; simpl.
  - failed.
  - eexists; split; [reflexivity|].
    unfold set_isActive. rewrite account_at_set_account_eq. simpl.
    repeat split.
    intros other Hne. by apply accounts_set_account_ne.
Qed.

(** *** C9 *)


(** *** C10 *)

(** C10: [getAccountBalance] fails with AccountNotFound for every user whose
    account is not active.  In particular, after a successful
    [deactivateAccount] the record of the caller is still stored with the
    balance and mirror it had, and the getter refuses to return them. *)
Theorem getAccountBalance_inactive_unreadable :
  (forall user s,
     isActive (account_at s user) = false ->
     fails_with (getAccountBalance user s) AccountNotFound s)
  /\ (forall env s s',
      deactivateAccount env s = Done tt s' ->
      fails_with (getAccountBalance (msg_sender env) s') AccountNotFound s'
      /\ is_Some (accounts s' !! msg_sender env)
      /\ encryptedPoints (account_at s' (msg_sender env))
         = encryptedPoints (account_at s (msg_sender env))
      /\ publicPoints (account_at s' (msg_sender env))
         = publicPoints (account_at s (msg_sender env))).
Proof.
  assert (Hget : forall user s,
            isActive (account_at s user) = false ->
            fails_with (getAccountBalance user s) AccountNotFound s).
  { intros user s Hina. run_tx. rewrite Hina. simpl. failed. }
  split; [exact Hget|].
  intros env s s'. run_tx.
  destruct (isActive (account_at s (msg_sender env))) eqn:Hact; simpl; [|done].
  intros [= <-].
  split; [|split].
  - apply Hget. unfold set_isActive. by rewrite account_at_set_account_eq.
  - unfold set_isActive, set_account; simpl. rewrite lookup_insert_eq. by eexists.
  - unfold set_isActive. by rewrite account_at_set_account_eq.
Qed.

End Claims.

(** *** C6 *)

Lemma append_separator_inj (from1 from2 to1 to2 : string) :
  ~ In "-"%char (String.list_ascii_of_string from1) ->
  ~ In "-"%char (String.list_ascii_of_string from2) ->
  from1 +:+ "-" +:+ to1 = from2 +:+ "-" +:+ to2 ->
  from1 = from2 /\ to1 = to2.
Proof.
  revert from2. induction from1 as [|c1 from1 IH]; intros [|c2 from2] H1 H2 Heq;
    simpl in *; inversion Heq; subst.
  - done.
  - tauto.
  - tauto.
  - destruct (IH from2) as [-> ->]; tauto.
Qed.

Lemma append_separator_grows (x y : string) : x +:+ "-" +:+ y <> x.
Proof.
  induction x as [|c x IH]; simpl; [discriminate|].
  intros Heq. injection Heq as Heq. by apply IH.
Qed.

Lemma append_assoc (x y z : string) : (x +:+ y) +:+ z = x +:+ (y +:+ z).
Proof.
  induction x as [|c x IH]; [reflexivity|].
  change (String c ((x +:+ y) +:+ z) = String c (x +:+ (y +:+ z))).
  by rewrite IH.
Qed.

Lemma append_separator_assoc (x y z : string) :
  (x +:+ "-" +:+ y) +:+ "-" +:+ z = x +:+ "-" +:+ (y +:+ "-" +:+ z).
Proof. by rewrite !append_assoc. Qed.

(** C6: the key under which [convertPoints] looks up the rate is the first
    identifier, the separator "-" and the second identifier, joined as
    strings, and it is not injective.  Whenever identifiers contain the
    separator the key cannot tell where the first one ends: for all [x], [y],
    [z] the distinct pairs (x-y, z) and (x, y-z) have the same key.  In
    particular ("a-b", "c") and ("a", "b-c") both have the key "a-b-c", read
    the same ExchangeRate entry in every storage, and conversions for the
    two pairs that return leave the same encrypted balance.  The separator
    is the only cause: two distinct pairs with one key always have it in a
    from-identifier. *)
Theorem brandPairKey_not_injective :
  (forall fromBrand toBrand : string,
     brandPairKey fromBrand toBrand = fromBrand +:+ "-" +:+ toBrand)
  /\ (forall x y z : string,
       (x +:+ "-" +:+ y, z) <> (x, y +:+ "-" +:+ z)
       /\ brandPairKey (x +:+ "-" +:+ y) z = brandPairKey x (y +:+ "-" +:+ z))
  /\ (("a-b", "c") <> ("a", "b-c")
      /\ In "-"%char (String.list_ascii_of_string "a-b")
      /\ In "-"%char (String.list_ascii_of_string "b-c")
      /\ brandPairKey "a-b" "c" = "a-b-c"
      /\ brandPairKey "a" "b-c" = "a-b-c")
  /\ (forall (fhe : FHE.Scheme) (s : State),
       rate_at s (brandPairKey "a-b" "c") = rate_at s (brandPairKey "a" "b-c"))
  /\ (forall (fhe : FHE.Scheme) (env : Env) (amount : uint32) (s s1 s2 : State),
       convertPoints env "a-b" "c" amount s = Done tt s1 ->
       convertPoints env "a" "b-c" amount s = Done tt s2 ->
       encryptedPoints (account_at s1 (msg_sender env))
       = encryptedPoints (account_at s2 (msg_sender env)))
  /\ (forall from1 to1 from2 to2 : string,
       (from1, to1) <> (from2, to2) ->
       brandPairKey from1 to1 = brandPairKey from2 to2 ->
       In "-"%char (String.list_ascii_of_string from1)
       \/ In "-"%char (String.list_ascii_of_string from2)).
Proof.
  split; [reflexivity|]. split.
  { intros x y z. split.
    - intros Heq. injection Heq as Hx _. by apply append_separator_grows in Hx.
    - unfold brandPairKey. apply append_separator_assoc. }
  split.
  { split; [discriminate|]. split; [simpl; tauto|]. split; [simpl; tauto|].
    split; reflexivity. }
  split; [reflexivity|]. split.
  { intros fhe env amount s s1 s2 Hrun1 Hrun2.
    apply convertPoints_done_inv in Hrun1 as [_ ->].
    apply convertPoints_done_inv in Hrun2 as [_ ->].
    by rewrite !converted_balance. }
  intros from1 to1 from2 to2 Hne Hkey.
  destruct (In_dec ascii_dec "-"%char (String.list_ascii_of_string from1)) as [|Hno1];
    [by left|].
  destruct (In_dec ascii_dec "-"%char (String.list_ascii_of_string from2)) as [|Hno2];
    [by right|].
  destruct (append_separator_inj from1 from2 to1 to2 Hno1 Hno2 Hkey) as [-> ->].
  done.
Qed.

(** ** Claims about the decryption bridge *)

Section BridgeClaims.

Import DecryptionOracleBridge.

Variable trustedVerifier : list Z -> list Z -> bytes -> bool.

Lemma request_verified r v : state r = Verified v -> request r = r.
Proof. intros Hv. unfold request. by rewrite Hv. Qed.

Lemma verify_verified cleartextValues proof r v :
  state r = Verified v ->
  verify trustedVerifier cleartextValues proof r = (inr v, r).
Proof. intros Hv. unfold verify. by rewrite Hv. Qed.

Lemma verifyDecryption_verified recordId cleartextValues proof records r v :
  records !! recordId = Some r ->
  state r = Verified v ->
  verifyDecryption trustedVerifier recordId cleartextValues proof records
  = (Some (inr v), records).
Proof.
  intros Hr Hv. unfold verifyDecryption. rewrite Hr.
  rewrite (verify_verified _ _ _ _ Hv).
  by rewrite insert_id.
Qed.

Lemma step_keeps_verified records op recordId r v :
  records !! recordId = Some r ->
  state r = Verified v ->
  step trustedVerifier records op !! recordId = Some r.
Proof.
  intros Hr Hv. destruct op as [other | other cleartextValues proof]; simpl.
  - unfold requestDecryption.
    destruct (decide (other = recordId)) as [->|Hne].
    + rewrite Hr, (request_verified _ _ Hv). by rewrite lookup_insert_eq.
    + destruct (records !! other); [by rewrite lookup_insert_ne | done].
  - unfold verifyDecryption.
    destruct (decide (other = recordId)) as [->|Hne].
    + rewrite Hr, (verify_verified _ _ _ _ Hv). simpl. by rewrite lookup_insert_eq.
    + destruct (records !! other) as [r'|]; [|done].
      destruct (verify trustedVerifier cleartextValues proof r') as [res r''].
      simpl. by rewrite lookup_insert_ne.
Qed.

Lemma run_keeps_verified ops records recordId r v :
  records !! recordId = Some r ->
  state r = Verified v ->
  run trustedVerifier ops records !! recordId = Some r.
Proof.
  revert records. induction ops as [|op ops IH]; intros records Hr Hv; [done|].
  simpl. apply IH; [|done]. by eapply step_keeps_verified.
Qed.

(** C5: once a record is Verified with cleartext [v], it stays that very
    record through every run of bridge operations, so it never leaves the
    Verified state; and at any later point [verifyDecryption] for it returns
    the stored [v] and leaves the records as they are, whatever cleartext
    and proof are submitted. *)
Theorem verified_terminal_idempotent records recordId r v :
  records !! recordId = Some r ->
  state r = Verified v ->
  forall ops : list Op,
    run trustedVerifier ops records !! recordId = Some r
    /\ forall cleartextValues proof,
         verifyDecryption trustedVerifier recordId cleartextValues proof
           (run trustedVerifier ops records)
         = (Some (inr v), run trustedVerifier ops records).
Proof.
  intros Hr Hv ops.
  pose proof (run_keeps_verified ops records recordId r v Hr Hv) as Hrun.
  split; [exact Hrun|].
  intros cleartextValues proof. by eapply verifyDecryption_verified.
Qed.

End BridgeClaims.

(** ** More about the ledger *)

Section Ledger_facts.

Context {fhe : FHE.Scheme}.

Ltac by_call c :=
  destruct c as [h p pts | brandId | brandPair h p r | fromBrand toBrand amount
                | | newPoints | newOwner];
  unfold commit; simpl exec;
  rewrite ?createAccount_unfold, ?addSupportedBrand_unfold, ?setExchangeRate_unfold,
    ?convertPoints_unfold, ?deactivateAccount_unfold, ?updatePublicPoints_unfold,
    ?transferOwnership_unfold;
  repeat (match goal with |- context [if ?c then _ else _] => destruct c eqn:? end; simpl).

Ltac writes :=
  unfold converted, set_encryptedPoints, set_publicPoints, set_lastUpdated,
    set_isActive, emit, acl, set_account, set_rate, set_brand, push_brand,
    set_owner; simpl.

(** *** Who can change what *)

Lemma exec_accounts_ne env c s other :
  other <> msg_sender env ->
  accounts (commit (exec env c) s) !! other = accounts s !! other.
Proof.
  intros Hne. by_call c; writes; try done;
    by rewrite !lookup_insert_ne by done.
Qed.

(** A call changes no account but the caller's own: over any sequence of
    calls, the record stored for an address that makes none of them is the
    one that was there before. *)
Theorem run_calls_other_accounts calls s other :
  Forall (fun ec => msg_sender (fst ec) <> other) calls ->
  accounts (run_calls calls s) !! other = accounts s !! other.
Proof.
  revert s. induction calls as [|[env c] calls IH]; intros s Hall; [done|].
  apply Forall_cons in Hall as [Hne Hall]. simpl in Hne.
  unfold run_calls in *; simpl.
  rewrite IH by done. by apply exec_accounts_ne.
Qed.

Lemma exec_non_owner env c s :
  msg_sender env <> owner s ->
  supportedBrands (commit (exec env c) s) = supportedBrands s
  /\ brandList (commit (exec env c) s) = brandList s
  /\ exchangeRates (commit (exec env c) s) = exchangeRates s
  /\ owner (commit (exec env c) s) = owner s.
Proof.
  intros Hne. by_call c; writes; try done;
    match goal with H : negb (bool_decide _) = false |- _ =>
      apply negb_false_iff, bool_decide_eq_true in H; contradiction end.
Qed.

(** Calls by anyone but the owner, however many, leave the brand registry,
    the brand list, the rate table and the owner as they were. *)
Theorem run_calls_non_owner_frame calls s :
  Forall (fun ec => msg_sender (fst ec) <> owner s) calls ->
  supportedBrands (run_calls calls s) = supportedBrands s
  /\ brandList (run_calls calls s) = brandList s
  /\ exchangeRates (run_calls calls s) = exchangeRates s
  /\ owner (run_calls calls s) = owner s.
Proof.
  revert s. induction calls as [|[env c] calls IH]; intros s Hall; [done|].
  apply Forall_cons in Hall as [Hne Hall]. simpl in Hne.
  destruct (exec_non_owner env c s Hne) as (Hb & Hl & Hr & Ho).
  unfold run_calls in *; simpl.
  destruct (IH (commit (exec env c) s)) as (Hb' & Hl' & Hr' & Ho').
  { by rewrite Ho. }
  rewrite Hb', Hl', Hr', Ho'. done.
Qed.

(** *** Nothing is ever removed *)

Lemma exec_extends_lists env c s :
  brandList s `prefix_of` brandList (commit (exec env c) s)
  /\ events s `prefix_of` events (commit (exec env c) s)
  /\ aclCalls s `prefix_of` aclCalls (commit (exec env c) s).
Proof.
  by_call c; writes; repeat split; try done;
    try (by apply prefix_app_r);
    rewrite <- ?app_assoc; by apply prefix_app_r.
Qed.

(** Over any sequence of calls, by any callers, a registered brand stays
    registered, and the brand list, the event log and the ACL log are only
    ever extended at the end. *)
Theorem run_calls_never_removes calls s :
  (forall b, brand_at s b = true -> brand_at (run_calls calls s) b = true)
  /\ brandList s `prefix_of` brandList (run_calls calls s)
  /\ events s `prefix_of` events (run_calls calls s)
  /\ aclCalls s `prefix_of` aclCalls (run_calls calls s).
Proof.
  revert s. induction calls as [|[env c] calls IH]; intros s.
  - repeat split; done.
  - destruct (IH (commit (exec env c) s)) as (Hb & Hl & He & Hc).
    destruct (exec_extends_lists env c s) as (Hl0 & He0 & Hc0).
    unfold run_calls in *; simpl.
    split; [|split; [|split]].
    + intros b Hreg. by apply Hb, exec_registry_grows.
    + by etrans.
    + by etrans.
    + by etrans.
Qed.

(** *** The brand list and the registry *)

Lemma exec_brandList_matches env c s :
  (NoDup (brandList s) /\ forall b, brand_at s b = true <-> b ∈ brandList s) ->
  NoDup (brandList (commit (exec env c) s))
  /\ forall b, brand_at (commit (exec env c) s) b = true
               <-> b ∈ brandList (commit (exec env c) s).
Proof.
  intros [Hnd Hiff]. by_call c; writes; try done.
  assert (Hfresh : brandId ∉ brandList s).
  { intros Hin. apply Hiff in Hin. congruence. }
  split.
  - apply NoDup_app. split; [done|]. split; [|apply NoDup_singleton].
    intros x Hx Hb. apply list_elem_of_singleton in Hb as ->. done.
  - intros b. unfold brand_at; simpl. rewrite elem_of_app, list_elem_of_singleton.
    destruct (decide (brandId = b)) as [->|Hne].
    + rewrite lookup_insert_eq. simpl. tauto.
    + rewrite lookup_insert_ne by done. fold (brand_at s b). rewrite Hiff.
      split; [tauto|]. intros [?|?]; [done|congruence].
Qed.

Lemma reachable_brandList_matches s :
  reachable s ->
  NoDup (brandList s) /\ forall b, brand_at s b = true <-> b ∈ brandList s.
Proof.
  induction 1 as [env | env c s Hs IH].
  - split; [apply NoDup_nil_2|]. intros b. simpl.
    unfold brand_at; simpl. rewrite lookup_empty. simpl.
    split; [discriminate | intros Hin; by apply not_elem_of_nil in Hin].
  - by apply exec_brandList_matches.
Qed.

(** In every storage a deployment reaches, [getSupportedBrands] returns a
    list without repetitions that holds exactly the registered brands. *)
Theorem getSupportedBrands_exact s :
  reachable s ->
  exists l,
    getSupportedBrands s = Done l s
    /\ NoDup l
    /\ forall b, brand_at s b = true <-> b ∈ l.
Proof.
  intros Hs. exists (brandList s). split; [reflexivity|].
  by apply reachable_brandList_matches.
Qed.

(** *** The owner *)

Lemma exec_owner_nonzero env c s :
  owner s <> 0 -> owner (commit (exec env c) s) <> 0.
Proof.
  intros Hnz. by_call c; writes; try done.
  by apply Z.eqb_neq.
Qed.

(** The owner is never the zero address: if it is not zero to begin with,
    no sequence of calls makes it zero. *)
Theorem run_calls_owner_nonzero calls s :
  owner s <> 0 -> owner (run_calls calls s) <> 0.
Proof.
  revert s. induction calls as [|[env c] calls IH]; intros s Hnz; [done|].
  unfold run_calls in *; simpl. by apply IH, exec_owner_nonzero.
Qed.

(** *** Deactivated accounts *)

Lemma exec_frozen env c s a :
  isActive (account_at s a) = false ->
  publicPoints (account_at s a) <> 0 ->
  account_at (commit (exec env c) s) a = account_at s a.
Proof.
  intros Hoff Hmirror.
  destruct (decide (a = msg_sender env)) as [->|Hne].
  - by_call c; writes; try done;
      repeat match goal with
             | H : negb _ = false |- _ => apply negb_false_iff in H
             end;
      try congruence.
    match goal with H : (_ =? 0) = true |- _ => apply Z.eqb_eq in H end. done.
  - unfold account_at. by rewrite exec_accounts_ne.
Qed.

(** A deactivated account whose mirror is not zero is frozen: whatever
    calls follow, from whatever callers, its encrypted balance, mirror,
    timestamp and inactive flag stay as they are. *)
Theorem run_calls_frozen calls s a :
  isActive (account_at s a) = false ->
  publicPoints (account_at s a) <> 0 ->
  account_at (run_calls calls s) a = account_at s a.
Proof.
  revert s. induction calls as [|[env c] calls IH]; intros s Hoff Hmirror; [done|].
  unfold run_calls in *; simpl.
  pose proof (exec_frozen env c s a Hoff Hmirror) as Hstep.
  rewrite IH; rewrite Hstep; done.
Qed.

(** *** Registering a brand *)

(** The owner's [addSupportedBrand] for a brand that is not registered
    returns, registers it and puts it at the end of the brand list; no other
    brand, no account, no rate, neither log nor the owner changes.  From
    then on the owner's [addSupportedBrand] for the same brand fails with
    BrandAlreadyRegistered. *)
Theorem addSupportedBrand_once env brandId s :
  msg_sender env = owner s ->
  brand_at s brandId = false ->
  exists s',
    addSupportedBrand env brandId s = Done tt s'
    /\ brand_at s' brandId = true
    /\ brandList s' = (brandList s ++ [brandId])%list
    /\ (forall b, b <> brandId -> brand_at s' b = brand_at s b)
    /\ accounts s' = accounts s
    /\ exchangeRates s' = exchangeRates s
    /\ owner s' = owner s
    /\ events s' = events s
    /\ aclCalls s' = aclCalls s
    /\ forall env', msg_sender env' = owner s' ->
         fails_with (addSupportedBrand env' brandId s') BrandAlreadyRegistered s'.
Proof.
  intros Hown Hnew. eexists. split.
  { rewrite addSupportedBrand_unfold, Hnew.
    rewrite bool_decide_eq_true_2 by done. reflexivity. }
  assert (Hreg : brand_at (push_brand brandId (set_brand brandId true s)) brandId = true).
  { unfold brand_at; simpl. by rewrite lookup_insert_eq. }
  split; [exact Hreg|]. split; [reflexivity|]. split.
  { intros b Hne. unfold brand_at; simpl. by rewrite lookup_insert_ne. }
  repeat (split; [reflexivity|]).
  intros env' Hown'. rewrite addSupportedBrand_unfold, Hreg.
  rewrite bool_decide_eq_true_2 by done. simpl.
  eexists; split; reflexivity.
Qed.

(** *** Creating an account *)


(** A successful [createAccount] can be read back: [getAccountBalance] for
    the caller returns the handle and the mirror that were passed.  The call
    stamps the account with the block time, logs one AccountCreated event
    and the two ACL grants for the new handle, and leaves every other
    account, the rates, the registry and the owner alone. *)
Theorem createAccount_then_getAccountBalance env h p pts s :
  publicPoints (account_at s (msg_sender env)) = 0 ->
  FHE.isInitialized (FHE.fromExternal h p) = true ->
  exists s',
    createAccount env h p pts s = Done tt s'
    /\ getAccountBalance (msg_sender env) s' = Done (FHE.fromExternal h p, pts) s'
    /\ lastUpdated (account_at s' (msg_sender env)) = block_timestamp env
    /\ events s' = (events s ++ [AccountCreated (msg_sender env) pts])%list
    /\ aclCalls s' = (aclCalls s ++ [AllowThis (FHE.fromExternal h p);
                                     MakePubliclyDecryptable (FHE.fromExternal h p)])%list
    /\ (forall other, other <> msg_sender env ->
          accounts s' !! other = accounts s !! other)
    /\ exchangeRates s' = exchangeRates s
    /\ supportedBrands s' = supportedBrands s
    /\ brandList s' = brandList s
    /\ owner s' = owner s.
Proof.
  intros Hzero Hinit.
  set (acct := mkAccount (FHE.fromExternal h p) pts (block_timestamp env) true).
  set (s' := emit (AccountCreated (msg_sender env) pts)
               (acl (MakePubliclyDecryptable (FHE.fromExternal h p))
                  (acl (AllowThis (FHE.fromExternal h p))
                     (set_account (msg_sender env) acct s)))).
  assert (Hacct : account_at s' (msg_sender env) = acct).
  { unfold s'. by rewrite account_at_emit, !account_at_acl, account_at_set_account_eq. }
  exists s'. split.
  { rewrite createAccount_unfold, Hzero, Hinit. reflexivity. }
  split.
  { unfold getAccountBalance, mbind, M_bind, read, require.
    rewrite Hacct. change (isActive acct) with true. cbv iota beta.
    by rewrite Hacct. }
  split; [by rewrite Hacct|].
  split; [reflexivity|]. split.
  { simpl. by rewrite <- app_assoc. }
  split.
  { intros other Hne. simpl. by rewrite lookup_insert_ne. }
  repeat split.
Qed.

(** *** Setting and reading a rate *)


(** A rate the owner sets with a positive mirror can be read back:
    [getExchangeRate] for the same key returns the handle and the mirror
    that were passed, whatever was stored under the key before.  The entry
    of every other key, the accounts, the registry and the owner are left
    alone; one ExchangeRateUpdated event and the two ACL grants are
    logged. *)
Theorem setExchangeRate_then_getExchangeRate env brandPair h p r s :
  msg_sender env = owner s ->
  brand_at s brandPair = true ->
  FHE.isInitialized (FHE.fromExternal h p) = true ->
  0 < r ->
  exists s',
    setExchangeRate env brandPair h p r s = Done tt s'
    /\ getExchangeRate brandPair s' = Done (FHE.fromExternal h p, r) s'
    /\ rateLastUpdated (rate_at s' brandPair) = block_timestamp env
    /\ (forall k, k <> brandPair -> exchangeRates s' !! k = exchangeRates s !! k)
    /\ events s' = (events s ++ [ExchangeRateUpdated brandPair r])%list
    /\ aclCalls s' = (aclCalls s ++ [AllowThis (FHE.fromExternal h p);
                                     MakePubliclyDecryptable (FHE.fromExternal h p)])%list
    /\ accounts s' = accounts s
    /\ supportedBrands s' = supportedBrands s
    /\ brandList s' = brandList s
    /\ owner s' = owner s.
Proof.
  intros Hown Hyes Hinit Hpos.
  set (rate := mkRate (FHE.fromExternal h p) r (block_timestamp env)).
  set (s' := emit (ExchangeRateUpdated brandPair r)
               (acl (MakePubliclyDecryptable (FHE.fromExternal h p))
                  (acl (AllowThis (FHE.fromExternal h p))
                     (set_rate brandPair rate s)))).
  assert (Hrate : rate_at s' brandPair = rate).
  { unfold s', rate_at; simpl. by rewrite lookup_insert_eq. }
  exists s'. split.
  { rewrite setExchangeRate_unfold, Hyes, Hinit.
    rewrite bool_decide_eq_true_2 by done. reflexivity. }
  split.
  { unfold getExchangeRate, mbind, M_bind, read, require.
    rewrite Hrate. change (publicRate rate) with r.
    destruct (Z.ltb_spec 0 r); [|lia]. cbv iota beta. by rewrite Hrate. }
  split; [by rewrite Hrate|]. split.
  { intros k Hne. simpl. by rewrite lookup_insert_ne. }
  split; [reflexivity|]. split.
  { simpl. by rewrite <- app_assoc. }
  repeat split.
Qed.


(** *** Updating the mirror *)

(** [updatePublicPoints] fails with AccountNotActive for an inactive
    caller.  For an active one it returns, stores the new mirror and the
    block time, and touches nothing else: the encrypted balance and the
    active flag of the account, every other account, the rates, the
    registry, the owner and both logs are as before. *)
Theorem updatePublicPoints_frame env newPoints s :
  (isActive (account_at s (msg_sender env)) = false ->
     fails_with (updatePublicPoints env newPoints s) AccountNotActive s)
  /\ (isActive (account_at s (msg_sender env)) = true ->
      exists s',
        updatePublicPoints env newPoints s = Done tt s'
        /\ publicPoints (account_at s' (msg_sender env)) = newPoints
        /\ lastUpdated (account_at s' (msg_sender env)) = block_timestamp env
        /\ encryptedPoints (account_at s' (msg_sender env))
           = encryptedPoints (account_at s (msg_sender env))
        /\ isActive (account_at s' (msg_sender env)) = true
        /\ (forall other, other <> msg_sender env ->
              accounts s' !! other = accounts s !! other)
        /\ exchangeRates s' = exchangeRates s
        /\ supportedBrands s' = supportedBrands s
        /\ brandList s' = brandList s
        /\ owner s' = owner s
        /\ events s' = events s
        /\ aclCalls s' = aclCalls s).
Proof.
  split; intros Hact; rewrite updatePublicPoints_unfold, Hact; simpl.
  - eexists; split; reflexivity.
  - eexists; split; [reflexivity|].
    unfold set_lastUpdated, set_publicPoints.
    rewrite !account_at_set_account_eq. simpl.
    repeat split; try done.
    intros other Hne. by rewrite !lookup_insert_ne.
Qed.

(** Setting the mirror to 0 makes the account creatable again: after an
    active caller's [updatePublicPoints] with 0, the same caller's
    [createAccount] with an initialised input returns and replaces the
    encrypted balance, the mirror and the timestamp of the account. *)
Theorem updatePublicPoints_zero_then_createAccount env env' h p pts s :
  isActive (account_at s (msg_sender env)) = true ->
  msg_sender env' = msg_sender env ->
  FHE.isInitialized (FHE.fromExternal h p) = true ->
  exists s1 s2,
    updatePublicPoints env 0 s = Done tt s1
    /\ encryptedPoints (account_at s1 (msg_sender env))
       = encryptedPoints (account_at s (msg_sender env))
    /\ createAccount env' h p pts s1 = Done tt s2
    /\ account_at s2 (msg_sender env)
       = mkAccount (FHE.fromExternal h p) pts (block_timestamp env') true.
Proof.
  intros Hact Hsame Hinit.
  set (s1 := set_lastUpdated (msg_sender env) (block_timestamp env)
               (set_publicPoints (msg_sender env) 0 s)).
  assert (Hacct1 : account_at s1 (msg_sender env)
                   = mkAccount (encryptedPoints (account_at s (msg_sender env))) 0
                               (block_timestamp env) true).
  { unfold s1, set_lastUpdated, set_publicPoints.
    rewrite !account_at_set_account_eq. simpl. by rewrite Hact. }
  destruct (createAccount_zero_mirror env' h p pts s1) as (s2 & Hrun2 & Hacct2).
  { by rewrite Hsame, Hacct1. }
  { done. }
  exists s1, s2. split.
  { by rewrite updatePublicPoints_unfold, Hact. }
  split; [by rewrite Hacct1|]. split; [done|].
  by rewrite <- Hsame.
Qed.

(** *** Handing over ownership *)

(** [transferOwnership] fails with Unauthorized for anyone but the owner and
    with InvalidAddress for the zero address.  Otherwise the new owner is
    stored and nothing else changes; from then on the new owner passes
    [onlyOwner], and the previous owner, if it is a different address, is
    turned away by [addSupportedBrand], [setExchangeRate] and
    [transferOwnership]. *)
Theorem transferOwnership_handover env newOwner s :
  (msg_sender env <> owner s ->
     fails_with (transferOwnership env newOwner s) Unauthorized s)
  /\ (msg_sender env = owner s ->
      newOwner = 0 ->
      fails_with (transferOwnership env newOwner s) InvalidAddress s)
  /\ (msg_sender env = owner s ->
      newOwner <> 0 ->
      exists s',
        transferOwnership env newOwner s = Done tt s'
        /\ owner s' = newOwner
        /\ accounts s' = accounts s
        /\ exchangeRates s' = exchangeRates s
        /\ supportedBrands s' = supportedBrands s
        /\ brandList s' = brandList s
        /\ events s' = events s
        /\ aclCalls s' = aclCalls s
        /\ (forall env', msg_sender env' = newOwner -> onlyOwner env' s' = Done tt s')
        /\ (forall env' b k h p r o,
              msg_sender env' = owner s ->
              newOwner <> owner s ->
              fails_with (addSupportedBrand env' b s') Unauthorized s'
              /\ fails_with (setExchangeRate env' k h p r s') Unauthorized s'
              /\ fails_with (transferOwnership env' o s') Unauthorized s')).
Proof.
  split; [|split].
  - intros Hne. rewrite transferOwnership_unfold.
    rewrite bool_decide_eq_false_2 by done. simpl. eexists; split; reflexivity.
  - intros Hown ->. rewrite transferOwnership_unfold.
    rewrite bool_decide_eq_true_2 by done. simpl. eexists; split; reflexivity.
  - intros Hown Hnz. eexists. split.
    { rewrite transferOwnership_unfold.
      rewrite bool_decide_eq_true_2 by done. simpl.
      destruct (Z.eqb_spec newOwner 0); [done|]. reflexivity. }
    repeat (split; [reflexivity|]). split.
    + intros env' Hnew. by apply onlyOwner_owner.
    + intros env' b k h p r o Hold Hdiff.
      assert (Hne : msg_sender env' <> owner (set_owner newOwner s)).
      { simpl. congruence. }
      rewrite addSupportedBrand_unfold, setExchangeRate_unfold, transferOwnership_unfold.
      rewrite bool_decide_eq_false_2 by done. simpl.
      repeat split; eexists; split; reflexivity.
Qed.

(** *** What a conversion touches *)

(** A [convertPoints] that returns leaves the caller's mirror as it was, so
    the mirror no longer tracks the balance; the account stays active and is
    stamped with the block time.  One PointsConverted event is logged and no
    ACL grant is made for the new balance handle.  No other account, no
    rate, and neither the registry nor the owner changes. *)
Theorem convertPoints_frame env fromBrand toBrand amount s s' :
  convertPoints env fromBrand toBrand amount s = Done tt s' ->
  publicPoints (account_at s' (msg_sender env))
  = publicPoints (account_at s (msg_sender env))
  /\ isActive (account_at s' (msg_sender env)) = true
  /\ lastUpdated (account_at s' (msg_sender env)) = block_timestamp env
  /\ events s'
     = (events s ++ [PointsConverted (msg_sender env) fromBrand toBrand amount])%list
  /\ aclCalls s' = aclCalls s
  /\ (forall other, other <> msg_sender env ->
        accounts s' !! other = accounts s !! other)
  /\ exchangeRates s' = exchangeRates s
  /\ supportedBrands s' = supportedBrands s
  /\ brandList s' = brandList s
  /\ owner s' = owner s.
Proof.
  intros Hrun. apply convertPoints_done_inv in Hrun as [Hc ->].
  unfold convertible in Hc.
  apply andb_prop in Hc as [Hc _]. apply andb_prop in Hc as [Hc _].
  apply andb_prop in Hc as [Hact _].
  unfold converted, set_encryptedPoints, set_lastUpdated.
  rewrite account_at_emit, !account_at_set_account_eq. simpl.
  repeat split; try done.
  intros other Hne. by rewrite !lookup_insert_ne.
Qed.

(** Conversions for one pair add up: after a conversion of [amount1] that
    returned, the same caller's conversion of any positive [amount2] also
    returns, and the balance then decrypts to what a single conversion of
    [amount1 + amount2] leaves, modulo 2^32. *)
Theorem convertPoints_twice env1 env2 fromBrand toBrand amount1 amount2 s s1 :
  msg_sender env2 = msg_sender env1 ->
  convertPoints env1 fromBrand toBrand amount1 s = Done tt s1 ->
  0 < amount2 ->
  exists s2,
    convertPoints env2 fromBrand toBrand amount2 s1 = Done tt s2
    /\ FHE.decrypt (encryptedPoints (account_at s2 (msg_sender env1)))
       = (FHE.decrypt (encryptedPoints (account_at s (msg_sender env1)))
          - (amount1 + amount2)
          + (amount1 + amount2)
            * FHE.decrypt (encryptedRate (rate_at s (brandPairKey fromBrand toBrand))))
         mod two32.
Proof.
  intros Hsame Hrun Hpos.
  apply convertPoints_done_inv in Hrun as [Hc ->].
  assert (Hrate : forall k, rate_at (converted env1 fromBrand toBrand amount1 s) k
                            = rate_at s k) by reflexivity.
  assert (Hbrand : forall b, brand_at (converted env1 fromBrand toBrand amount1 s) b
                             = brand_at s b) by reflexivity.
  assert (Hact : isActive (account_at (converted env1 fromBrand toBrand amount1 s)
                             (msg_sender env1))
                 = isActive (account_at s (msg_sender env1))).
  { unfold converted, set_encryptedPoints, set_lastUpdated.
    by rewrite account_at_emit, !account_at_set_account_eq. }
  eexists. split.
  - apply convertPoints_success.
    unfold convertible in *. rewrite Hsame, Hact, !Hbrand, Hrate.
    apply andb_prop in Hc as [Hc Hr]. apply andb_prop in Hc as [Hc _].
    rewrite Hc, Hr. simpl. rewrite andb_true_r. by apply Z.ltb_lt.
  - rewrite <- Hsame at 1. rewrite converted_balance_plain, Hsame.
    rewrite converted_balance_plain, Hrate.
    set (b := FHE.decrypt (encryptedPoints (account_at s (msg_sender env1)))).
    set (r := FHE.decrypt (encryptedRate (rate_at s (brandPairKey fromBrand toBrand)))).
    replace ((b - amount1 + amount1 * r) mod two32 - amount2 + amount2 * r)
      with ((b - amount1 + amount1 * r) mod two32 + (amount2 * r - amount2)) by ring.
    rewrite Zplus_mod_idemp_l. f_equal. ring.
Qed.

(** *** Stored rates in a reachable storage *)

Lemma exec_rates_initialised env c s :
  (forall k r, exchangeRates s !! k = Some r ->
               FHE.isInitialized (encryptedRate r) = true) ->
  forall k r, exchangeRates (commit (exec env c) s) !! k = Some r ->
              FHE.isInitialized (encryptedRate r) = true.
Proof.
  intros Hinv k stored. by_call c; writes; try apply Hinv.
  destruct (decide (brandPair = k)) as [->|Hne].
  - rewrite lookup_insert_eq. intros [= <-]. simpl.
    match goal with H : negb (FHE.isInitialized _) = false |- _ =>
      by apply negb_false_iff in H end.
  - rewrite lookup_insert_ne by done. apply Hinv.
Qed.

Lemma reachable_rates_initialised s :
  reachable s ->
  forall k r, exchangeRates s !! k = Some r ->
              FHE.isInitialized (encryptedRate r) = true.
Proof.
  induction 1 as [env | env c s Hs IH].
  - intros k r. simpl. by rewrite lookup_empty.
  - by apply exec_rates_initialised.
Qed.

Lemma positive_rate_stored s k :
  0 < publicRate (rate_at s k) ->
  exists r, exchangeRates s !! k = Some r /\ rate_at s k = r.
Proof.
  unfold rate_at. destruct (exchangeRates s !! k) as [r|]; simpl; [by eexists|lia].
Qed.

(** In every storage a deployment reaches, a rate that [getExchangeRate]
    returns has an initialised ciphertext and a positive mirror, and its key
    is one of the strings listed by [getSupportedBrands]; the call changes
    nothing. *)
Theorem getExchangeRate_reachable s brandPair h r s' :
  reachable s ->
  getExchangeRate brandPair s = Done (h, r) s' ->
  s' = s
  /\ FHE.isInitialized h = true
  /\ 0 < r
  /\ brandPair ∈ brandList s.
Proof.
  intros Hs. unfold getExchangeRate, mbind, M_bind, read, require.
  destruct (Z.ltb_spec 0 (publicRate (rate_at s brandPair))) as [Hpos|]; [|done].
  intros [= Hh Hmirror Hsame]. subst h r s'.
  destruct (positive_rate_stored s brandPair Hpos) as (stored & Hstored & Heq).
  split; [done|]. split.
  { rewrite Heq. by eapply reachable_rates_initialised. }
  split; [done|].
  apply (reachable_brandList_matches s Hs).
  apply (reachable_rate_keys_registered s Hs). by rewrite Hstored.
Qed.

(** In every storage a deployment reaches, a [convertPoints] returns only
    if three strings are in the brand registry: the two brands and the key
    of the pair itself; the ciphertext it multiplies by is then an
    initialised one. *)
Theorem convertPoints_reachable_needs env fromBrand toBrand amount s s' :
  reachable s ->
  convertPoints env fromBrand toBrand amount s = Done tt s' ->
  fromBrand ∈ brandList s
  /\ toBrand ∈ brandList s
  /\ brandPairKey fromBrand toBrand ∈ brandList s
  /\ FHE.isInitialized (encryptedRate (rate_at s (brandPairKey fromBrand toBrand))) = true.
Proof.
  intros Hs Hrun. apply convertPoints_done_inv in Hrun as [Hc _].
  unfold convertible in Hc.
  apply andb_prop in Hc as [Hc Hrate]. apply andb_prop in Hc as [Hc _].
  apply andb_prop in Hc as [_ Hreg]. apply andb_prop in Hreg as [Hfrom Hto].
  apply Z.ltb_lt in Hrate.
  destruct (positive_rate_stored s _ Hrate) as (r & Hr & Heq).
  destruct (reachable_brandList_matches s Hs) as [_ Hiff].
  split; [by apply Hiff|]. split; [by apply Hiff|]. split.
  - apply Hiff, (reachable_rate_keys_registered s Hs). by rewrite Hr.
  - rewrite Heq. by eapply reachable_rates_initialised.
Qed.

(** *** What the event log tells *)

Lemma last_rate_event_snoc k log e :
  last_rate_event k (log ++ [e])
  = match rate_event_for k e with
    | Some r => Some r
    | None => last_rate_event k log
    end.
Proof.
  unfold last_rate_event. rewrite omap_app. simpl.
  destruct (rate_event_for k e) as [r|]; simpl.
  - by rewrite last_snoc.
  - by rewrite app_nil_r.
Qed.

Lemma exec_last_rate_event env c s k :
  last_rate_event k (events s) = publicRate <$> exchangeRates s !! k ->
  last_rate_event k (events (commit (exec env c) s))
  = publicRate <$> exchangeRates (commit (exec env c) s) !! k.
Proof.
  intros Hinv. by_call c; writes; try done;
    rewrite last_rate_event_snoc; simpl; try done.
  destruct (decide (brandPair = k)) as [->|Hne].
  - by rewrite lookup_insert_eq.
  - by rewrite lookup_insert_ne.
Qed.

Lemma reachable_last_rate_event_entry s k :
  reachable s ->
  last_rate_event k (events s) = publicRate <$> exchangeRates s !! k.
Proof.
  induction 1 as [env | env c s Hs IH].
  - simpl. by rewrite lookup_empty.
  - by apply exec_last_rate_event.
Qed.

(** In every storage a deployment reaches, the event log is enough to
    know every rate mirror: the mirror stored under a key is the one carried
    by the latest ExchangeRateUpdated event for that key, and it is 0 for a
    key without such an event. *)
Theorem reachable_last_rate_event s k :
  reachable s ->
  publicRate (rate_at s k) = default 0 (last_rate_event k (events s)).
Proof.
  intros Hs. rewrite (reachable_last_rate_event_entry s k Hs).
  unfold rate_at. by destruct (exchangeRates s !! k).
Qed.

Lemma active_account_stored s a :
  isActive (account_at s a) = true -> is_Some (accounts s !! a).
Proof.
  unfold account_at. destruct (accounts s !! a); simpl; [by eexists|done].
Qed.

Lemma exec_announced env c s :
  (forall a, is_Some (accounts s !! a) -> announced a (events s)) ->
  forall a, is_Some (accounts (commit (exec env c) s) !! a) ->
            announced a (events (commit (exec env c) s)).
Proof.
  intros Hinv a.
  assert (Hgrow : forall e, announced a (events s) -> announced a (events s ++ [e])).
  { intros e [pts Hin]. exists pts. apply elem_of_app. by left. }
  by_call c; writes; try apply Hinv;
    repeat match goal with
           | H : negb _ = false |- _ => apply negb_false_iff in H
           end.
  1: { destruct (decide (msg_sender env = a)) as [<-|Hne].
       - intros _. exists pts. apply elem_of_app. right.
         by apply list_elem_of_singleton.
       - rewrite lookup_insert_ne by done. intros Hsome. by apply Hgrow, Hinv. }
  all: intros Hsome; try apply Hgrow; apply Hinv;
    repeat (apply lookup_insert_is_Some' in Hsome as [<- | Hsome];
            [by apply active_account_stored|]);
    done.
Qed.

Lemma reachable_stored_announced s :
  reachable s ->
  forall a, is_Some (accounts s !! a) -> announced a (events s).
Proof.
  induction 1 as [env | env c s Hs IH].
  - intros a. simpl. rewrite lookup_empty. by intros [? ?].
  - by apply exec_announced.
Qed.

(** In every storage a deployment reaches, every account that is not in
    the all-zero state, active or deactivated, was announced by an
    AccountCreated event for its address. *)
Theorem reachable_accounts_announced s a :
  reachable s ->
  account_at s a <> zeroAccount ->
  announced a (events s).
Proof.
  intros Hs Hnz. apply (reachable_stored_announced s Hs).
  unfold account_at in Hnz. destruct (accounts s !! a); [by eexists | done].
Qed.

End Ledger_facts.

(** *** The key of a pair *)

(** When neither from-brand contains the separator, the key determines the
    pair: two pairs with the same key are the same pair. *)
Theorem brandPairKey_injective_without_separator (from1 to1 from2 to2 : string) :
  ~ In "-"%char (String.list_ascii_of_string from1) ->
  ~ In "-"%char (String.list_ascii_of_string from2) ->
  brandPairKey from1 to1 = brandPairKey from2 to2 ->
  from1 = from2 /\ to1 = to2.
Proof. unfold brandPairKey. apply append_separator_inj. Qed.


(** ** The claims on concrete ledgers *)

#[local] Existing Instance PlainFHE.scheme.

(** *** C1 *)

(** C1: in a storage the deployment reaches, Alice's account exists,
    active, with encrypted balance 100 and mirror 0.  Her second
    [createAccount] is not refused: it returns and replaces the encrypted
    balance, the mirror and the timestamp of the account. *)
Theorem createAccount_zero_mirror_recreates :
  reachable Ledger.zero_mirror
  /\ account_at Ledger.zero_mirror Ledger.alice = mkAccount (Some 100) 0 1005 true
  /\ exists s',
       createAccount (Ledger.at_time Ledger.alice 1010) 7 Ledger.proof 7 Ledger.zero_mirror
       = Done tt s'
       /\ account_at s' Ledger.alice = mkAccount (Some 7) 7 1010 true.
Proof.
  split; [|split].
  - apply (reachable_call _ (CreateAccount _ _ _)), reachable_deployed.
  - reflexivity.
  - eexists. split; reflexivity.
Qed.

(** *** C2 *)

(** C2: both storages below are reached by the owner's calls.  With
    brands "A" and "B" both registered, the owner's [setExchangeRate] for
    "A-B" fails with BrandPairUnsupported; with neither "A" nor "B"
    registered but the string "A-B" in the registry, it returns and stores a
    rate under the key that [convertPoints] reads for the pair ("A", "B"). *)
Theorem setExchangeRate_checks_pair_string :
  (reachable Ledger.two_brands
   /\ brand_at Ledger.two_brands "A" = true
   /\ brand_at Ledger.two_brands "B" = true
   /\ fails_with
        (setExchangeRate (Ledger.at_time Ledger.deployer 1007) "A-B" 2 Ledger.proof 2
           Ledger.two_brands)
        BrandPairUnsupported Ledger.two_brands)
  /\ (reachable Ledger.pair_only
      /\ brand_at Ledger.pair_only "A" = false
      /\ brand_at Ledger.pair_only "B" = false
      /\ exists s',
           setExchangeRate (Ledger.at_time Ledger.deployer 1007) "A-B" 2 Ledger.proof 2
             Ledger.pair_only
           = Done tt s'
           /\ rate_at s' (brandPairKey "A" "B") = mkRate (Some 2) 2 1007).
Proof.
  split; (split; [|split; [reflexivity|split; [reflexivity|]]]).
  - do 2 apply (reachable_call _ (AddSupportedBrand _)). apply reachable_deployed.
  - apply setExchangeRate_unregistered_key; reflexivity.
  - apply (reachable_call _ (AddSupportedBrand _)), reachable_deployed.
  - eexists. split; reflexivity.
Qed.

(** *** Instances of the general claims *)

(** Alice holds 100 points, the rate for ("A", "B") is 2 and she converts
    50: the conversion returns and her balance decrypts to 150. *)
Lemma convertPoints_balance_update_150 :
  exists s',
    convertPoints (Ledger.at_time Ledger.alice 1007) "A" "B" 50 Ledger.with_account
    = Done tt s'
    /\ FHE.decrypt (encryptedPoints (account_at s' Ledger.alice)) = 150.
Proof.
  destruct (convertPoints_balance_update
              (Ledger.at_time Ledger.alice 1007) "A" "B" 50 Ledger.with_account)
    as (s' & Hrun & _ & _ & H150); try reflexivity.
  exists s'. split; [exact Hrun|].
  apply H150; reflexivity.
Defined.

(** One conversion for each check: no account, an unregistered brand, a
    zero amount, no rate for the pair. *)
Lemma convertPoints_check_order_cases :
  fails_with (convertPoints (Ledger.at_time Ledger.mallory 1007) "A" "B" 50 Ledger.with_account)
    AccountInactive Ledger.with_account
  /\ fails_with (convertPoints (Ledger.at_time Ledger.alice 1007) "A" "Z" 50 Ledger.with_account)
       BrandPairUnsupported Ledger.with_account
  /\ fails_with (convertPoints (Ledger.at_time Ledger.alice 1007) "A" "B" 0 Ledger.with_account)
       InvalidAmount Ledger.with_account
  /\ fails_with (convertPoints (Ledger.at_time Ledger.alice 1007) "B" "A" 50 Ledger.with_account)
       RateNotSet Ledger.with_account.
Proof.
  split; [|split; [|split]].
  - apply (convertPoints_check_order
             (Ledger.at_time Ledger.mallory 1007) "A" "B" 50 Ledger.with_account).
    reflexivity.
  - apply (convertPoints_check_order
             (Ledger.at_time Ledger.alice 1007) "A" "Z" 50 Ledger.with_account);
      reflexivity.
  - apply (convertPoints_check_order
             (Ledger.at_time Ledger.alice 1007) "A" "B" 0 Ledger.with_account);
      try reflexivity; discriminate.
  - apply (convertPoints_check_order
             (Ledger.at_time Ledger.alice 1007) "B" "A" 50 Ledger.with_account);
      try reflexivity; discriminate.
Defined.

(** The record "swap-1" holds 150; after another verification and a new
    request, a submission of 999 with an accepted proof still returns 150. *)
Lemma verified_terminal_idempotent_swap1 :
  DecryptionOracleBridge.verifyDecryption Ledger.accept_all "swap-1" [999] Ledger.proof
    (DecryptionOracleBridge.run Ledger.accept_all
       [DecryptionOracleBridge.VerifyDecryption "swap-1" [7] Ledger.proof;
        DecryptionOracleBridge.RequestDecryption "swap-1"]
       Ledger.records)
  = (Some (inr [150]),
     DecryptionOracleBridge.run Ledger.accept_all
       [DecryptionOracleBridge.VerifyDecryption "swap-1" [7] Ledger.proof;
        DecryptionOracleBridge.RequestDecryption "swap-1"]
       Ledger.records).
Proof.
  apply (verified_terminal_idempotent Ledger.accept_all Ledger.records "swap-1"
           Ledger.verified_record [150]);
    reflexivity.
Defined.

(** Mallory is not the owner of the deployment. *)
Lemma non_owner_unauthorized_mallory :
  fails_with (addSupportedBrand (Ledger.at_time Ledger.mallory 1007) "M" Ledger.with_rate)
    Unauthorized Ledger.with_rate
  /\ fails_with
       (setExchangeRate (Ledger.at_time Ledger.mallory 1007) "A-B" 9 Ledger.proof 9
          Ledger.with_rate)
       Unauthorized Ledger.with_rate.
Proof.
  destruct (non_owner_unauthorized (Ledger.at_time Ledger.mallory 1007) Ledger.with_rate
              "M" "A-B" 9 Ledger.proof 9) as (Hadd & Hset & _).
  - vm_compute. discriminate.
  - split; [exact Hadd | exact Hset].
Defined.

(** Alice deactivates her 100-point account, then tries once more. *)
Lemma deactivateAccount_frame_alice :
  (exists s',
     deactivateAccount (Ledger.at_time Ledger.alice 1006) Ledger.with_account = Done tt s'
     /\ isActive (account_at s' Ledger.alice) = false
     /\ encryptedPoints (account_at s' Ledger.alice) = Some 100)
  /\ fails_with (deactivateAccount (Ledger.at_time Ledger.alice 1008) Ledger.deactivated)
       AccountNotActive Ledger.deactivated.
Proof.
  split.
  - destruct (deactivateAccount_frame (Ledger.at_time Ledger.alice 1006) Ledger.with_account)
      as [_ Hdone].
    destruct Hdone as (s' & Hrun & Hoff & Hbal & _); [reflexivity|].
    exists s'. split; [exact Hrun|]. split; [exact Hoff|].
    exact (eq_trans Hbal eq_refl).
  - apply (deactivateAccount_frame (Ledger.at_time Ledger.alice 1008) Ledger.deactivated).
    reflexivity.
Defined.


(** Mallory never had an account; Alice deactivated hers, which still holds
    100 points. *)
Lemma getAccountBalance_inactive_unreadable_alice :
  fails_with (getAccountBalance Ledger.mallory Ledger.with_account)
    AccountNotFound Ledger.with_account
  /\ fails_with (getAccountBalance Ledger.alice Ledger.deactivated)
       AccountNotFound Ledger.deactivated
  /\ encryptedPoints (account_at Ledger.deactivated Ledger.alice) = Some 100
  /\ publicPoints (account_at Ledger.deactivated Ledger.alice) = 100.
Proof.
  destruct getAccountBalance_inactive_unreadable as [Hget Hoff].
  split.
  - apply Hget. reflexivity.
  - destruct (Hoff (Ledger.at_time Ledger.alice 1006) Ledger.with_account Ledger.deactivated)
      as (Hfail & _ & Hbal & Hpub); [reflexivity|].
    split; [exact Hfail|].
    split; [exact (eq_trans Hbal eq_refl) | exact (eq_trans Hpub eq_refl)].
Defined.

(** The pairs ("gold-air", "miles") and ("gold", "air-miles") are distinct
    and share the key "gold-air-miles"; "gold-air" holds the separator. *)
Lemma brandPairKey_not_injective_gold :
  ("gold-air", "miles") <> ("gold", "air-miles")
  /\ brandPairKey "gold-air" "miles" = brandPairKey "gold" "air-miles"
  /\ (In "-"%char (String.list_ascii_of_string "gold-air")
      \/ In "-"%char (String.list_ascii_of_string "gold")).
Proof.
  destruct brandPairKey_not_injective as (_ & Hfamily & _ & _ & _ & Hcause).
  destruct (Hfamily "gold" "air" "miles") as [Hne Hkey].
  split; [exact Hne|]. split; [exact Hkey|].
  exact (Hcause "gold-air" "miles" "gold" "air-miles" Hne Hkey).
Defined.

(** ** More about the ledger, on concrete ledgers *)

Lemma two_brands_reachable : reachable Ledger.two_brands.
Proof.
  apply (reachable_call (Ledger.at_time Ledger.deployer 1002) (AddSupportedBrand "B")).
  apply (reachable_call (Ledger.at_time Ledger.deployer 1001) (AddSupportedBrand "A")).
  apply reachable_deployed.
Qed.

Lemma with_rate_reachable : reachable Ledger.with_rate.
Proof.
  apply (reachable_call (Ledger.at_time Ledger.deployer 1004)
           (@SetExchangeRate PlainFHE.scheme "A-B" 2 Ledger.proof 2)).
  apply (reachable_call (Ledger.at_time Ledger.deployer 1003) (AddSupportedBrand "A-B")).
  apply two_brands_reachable.
Qed.

Lemma with_account_reachable : reachable Ledger.with_account.
Proof.
  apply (reachable_call (Ledger.at_time Ledger.alice 1005)
           (@CreateAccount PlainFHE.scheme 100 Ledger.proof 100)).
  apply with_rate_reachable.
Qed.

Lemma deactivated_reachable : reachable Ledger.deactivated.
Proof.
  apply (reachable_call (Ledger.at_time Ledger.alice 1006) DeactivateAccount).
  apply with_account_reachable.
Qed.

(** Mallory and the owner are busy; Alice's record is untouched. *)
Lemma run_calls_other_accounts_alice :
  accounts (run_calls Ledger.calls_by_others Ledger.with_account) !! Ledger.alice
  = Some (mkAccount (Some 100) 100 1005 true).
Proof.
  rewrite (run_calls_other_accounts Ledger.calls_by_others Ledger.with_account Ledger.alice).
  - reflexivity.
  - repeat (constructor; [discriminate|]). constructor.
Defined.

(** Nothing Mallory calls changes the registry, the rates or the owner. *)
Lemma run_calls_non_owner_frame_mallory :
  brandList (run_calls Ledger.calls_by_mallory Ledger.with_account) = ["A"; "B"; "A-B"]
  /\ owner (run_calls Ledger.calls_by_mallory Ledger.with_account) = Ledger.deployer.
Proof.
  destruct (run_calls_non_owner_frame Ledger.calls_by_mallory Ledger.with_account)
    as (_ & Hlist & _ & Hown).
  - repeat (constructor; [discriminate|]). constructor.
  - split; [exact (eq_trans Hlist eq_refl) | exact (eq_trans Hown eq_refl)].
Defined.

(** Brand "A" outlives the calls of the others, and the brand list still
    starts with "A", "B", "A-B". *)
Lemma run_calls_never_removes_others :
  brand_at (run_calls Ledger.calls_by_others Ledger.with_account) "A" = true
  /\ ["A"; "B"; "A-B"]
       `prefix_of` brandList (run_calls Ledger.calls_by_others Ledger.with_account).
Proof.
  destruct (run_calls_never_removes Ledger.calls_by_others Ledger.with_account)
    as (Hbrand & Hlist & _).
  split.
  - apply Hbrand. reflexivity.
  - exact Hlist.
Defined.

Lemma getSupportedBrands_exact_with_account :
  exists l,
    getSupportedBrands Ledger.with_account = Done l Ledger.with_account
    /\ NoDup l
    /\ forall b, brand_at Ledger.with_account b = true <-> b ∈ l.
Proof.
  apply (getSupportedBrands_exact Ledger.with_account).
  apply with_account_reachable.
Defined.

Lemma run_calls_owner_nonzero_mallory :
  owner (run_calls Ledger.calls_by_mallory Ledger.with_account) <> 0.
Proof.
  apply (run_calls_owner_nonzero Ledger.calls_by_mallory Ledger.with_account).
  discriminate.
Defined.

(** Alice's deactivated account survives every attempt to revive it. *)
Lemma run_calls_frozen_alice :
  account_at (run_calls Ledger.calls_after_deactivation Ledger.deactivated) Ledger.alice
  = mkAccount (Some 100) 100 1005 false.
Proof.
  rewrite (run_calls_frozen Ledger.calls_after_deactivation Ledger.deactivated Ledger.alice).
  - reflexivity.
  - reflexivity.
  - discriminate.
Defined.

(** The owner registers "C" next to "A", "B" and "A-B". *)
Lemma addSupportedBrand_once_C :
  exists s',
    addSupportedBrand (Ledger.at_time Ledger.deployer 1010) "C" Ledger.with_account
    = Done tt s'
    /\ brandList s' = ["A"; "B"; "A-B"; "C"]
    /\ fails_with (addSupportedBrand (Ledger.at_time Ledger.deployer 1011) "C" s')
         BrandAlreadyRegistered s'.
Proof.
  destruct (addSupportedBrand_once (Ledger.at_time Ledger.deployer 1010) "C"
              Ledger.with_account)
    as (s' & Hrun & _ & Hlist & _ & _ & _ & Hown & _ & _ & Hagain);
    [reflexivity | reflexivity |].
  exists s'. split; [exact Hrun|]. split; [exact (eq_trans Hlist eq_refl)|].
  apply Hagain. exact (eq_sym (eq_trans Hown eq_refl)).
Defined.


Lemma createAccount_then_getAccountBalance_mallory :
  exists s',
    createAccount (Ledger.at_time Ledger.mallory 1010) 5 Ledger.proof 6 Ledger.with_account
    = Done tt s'
    /\ getAccountBalance Ledger.mallory s' = Done (Some 5, 6) s'.
Proof.
  destruct (createAccount_then_getAccountBalance (fhe:=PlainFHE.scheme) (Ledger.at_time Ledger.mallory 1010)
              5 Ledger.proof 6 Ledger.with_account)
    as (s' & Hrun & Hget & _); [reflexivity | reflexivity |].
  exists s'. split; [exact Hrun | exact Hget].
Defined.


(** The owner replaces the rate 2 of "A-B" by 3. *)
Lemma setExchangeRate_then_getExchangeRate_AB :
  exists s',
    setExchangeRate (Ledger.at_time Ledger.deployer 1010) "A-B" 3 Ledger.proof 3
      Ledger.with_account
    = Done tt s'
    /\ getExchangeRate "A-B" s' = Done (Some 3, 3) s'.
Proof.
  destruct (setExchangeRate_then_getExchangeRate (fhe:=PlainFHE.scheme) (Ledger.at_time Ledger.deployer 1010)
              "A-B" 3 Ledger.proof 3 Ledger.with_account)
    as (s' & Hrun & Hget & _); [reflexivity | reflexivity | reflexivity | reflexivity |].
  exists s'. split; [exact Hrun | exact Hget].
Defined.


(** Alice sets her mirror to 70; her balance of 100 stays. *)
Lemma updatePublicPoints_frame_alice :
  fails_with (updatePublicPoints (Ledger.at_time Ledger.mallory 1010) 70 Ledger.with_account)
    AccountNotActive Ledger.with_account
  /\ exists s',
       updatePublicPoints (Ledger.at_time Ledger.alice 1010) 70 Ledger.with_account
       = Done tt s'
       /\ publicPoints (account_at s' Ledger.alice) = 70
       /\ encryptedPoints (account_at s' Ledger.alice) = Some 100.
Proof.
  split.
  - apply (updatePublicPoints_frame (Ledger.at_time Ledger.mallory 1010) 70
             Ledger.with_account).
    reflexivity.
  - destruct (updatePublicPoints_frame (Ledger.at_time Ledger.alice 1010) 70
                Ledger.with_account) as [_ Hdone].
    destruct Hdone as (s' & Hrun & Hmirror & _ & Hbal & _); [reflexivity|].
    exists s'. split; [exact Hrun|]. split; [exact Hmirror|].
    exact (eq_trans Hbal eq_refl).
Defined.

(** Alice zeroes her mirror and opens her account anew with 7 points. *)
Lemma updatePublicPoints_zero_then_createAccount_alice :
  exists s1 s2,
    updatePublicPoints (Ledger.at_time Ledger.alice 1010) 0 Ledger.with_account
    = Done tt s1
    /\ createAccount (Ledger.at_time Ledger.alice 1011) 7 Ledger.proof 7 s1 = Done tt s2
    /\ account_at s2 Ledger.alice = mkAccount (Some 7) 7 1011 true.
Proof.
  destruct (updatePublicPoints_zero_then_createAccount (fhe:=PlainFHE.scheme)
              (Ledger.at_time Ledger.alice 1010) (Ledger.at_time Ledger.alice 1011)
              7 Ledger.proof 7 Ledger.with_account)
    as (s1 & s2 & Hrun1 & _ & Hrun2 & Hacct); [reflexivity | reflexivity | reflexivity |].
  exists s1, s2. split; [exact Hrun1|]. split; [exact Hrun2 | exact Hacct].
Defined.

(** The owner hands the contract over to Mallory and is then turned away. *)
Lemma transferOwnership_handover_mallory :
  exists s',
    transferOwnership (Ledger.at_time Ledger.deployer 1010) Ledger.mallory Ledger.with_account
    = Done tt s'
    /\ owner s' = Ledger.mallory
    /\ fails_with (addSupportedBrand (Ledger.at_time Ledger.deployer 1011) "C" s')
         Unauthorized s'.
Proof.
  destruct (transferOwnership_handover (Ledger.at_time Ledger.deployer 1010)
              Ledger.mallory Ledger.with_account) as (_ & _ & Hdone).
  destruct Hdone as (s' & Hrun & Hown & _ & _ & _ & _ & _ & _ & _ & Hold);
    [reflexivity | discriminate |].
  exists s'. split; [exact Hrun|]. split; [exact Hown|].
  apply (Hold (Ledger.at_time Ledger.deployer 1011) "C" "A-B" (0 : Z) [] 0 0);
    [reflexivity | discriminate].
Defined.

(** Alice's conversion changes her balance to 150 and leaves her mirror at
    100. *)
Lemma convertPoints_frame_alice :
  publicPoints (account_at Ledger.converted_once Ledger.alice) = 100
  /\ FHE.decrypt (encryptedPoints (account_at Ledger.converted_once Ledger.alice)) = 150
  /\ aclCalls Ledger.converted_once = aclCalls Ledger.with_account.
Proof.
  destruct (convertPoints_frame (Ledger.at_time Ledger.alice 1007) "A" "B" 50
              Ledger.with_account Ledger.converted_once)
    as (Hmirror & _ & _ & _ & Hacl & _); [reflexivity|].
  split; [exact (eq_trans Hmirror eq_refl)|]. split; [reflexivity | exact Hacl].
Defined.

(** Alice converts 50 and then 30 at rate 2: 100 - 80 + 160 = 180. *)
Lemma convertPoints_twice_alice :
  exists s2,
    convertPoints (Ledger.at_time Ledger.alice 1008) "A" "B" 30 Ledger.converted_once
    = Done tt s2
    /\ FHE.decrypt (encryptedPoints (account_at s2 Ledger.alice)) = 180.
Proof.
  destruct (convertPoints_twice (Ledger.at_time Ledger.alice 1007)
              (Ledger.at_time Ledger.alice 1008) "A" "B" 50 30
              Ledger.with_account Ledger.converted_once)
    as (s2 & Hrun & Hplain); [reflexivity | reflexivity | reflexivity |].
  exists s2. split; [exact Hrun | exact (eq_trans Hplain eq_refl)].
Defined.

Lemma getExchangeRate_reachable_AB :
  FHE.isInitialized (Some 2 : FHE.euint32) = true
  /\ "A-B" ∈ brandList Ledger.with_account.
Proof.
  destruct (getExchangeRate_reachable Ledger.with_account "A-B" (Some 2) 2
              Ledger.with_account)
    as (_ & Hinit & _ & Hin); [apply with_account_reachable | reflexivity |].
  split; [exact Hinit | exact Hin].
Defined.

Lemma convertPoints_reachable_needs_alice :
  "A" ∈ brandList Ledger.with_account
  /\ "B" ∈ brandList Ledger.with_account
  /\ "A-B" ∈ brandList Ledger.with_account.
Proof.
  destruct (convertPoints_reachable_needs (Ledger.at_time Ledger.alice 1007) "A" "B" 50
              Ledger.with_account Ledger.converted_once)
    as (Hfrom & Hto & Hkey & _); [apply with_account_reachable | reflexivity |].
  split; [exact Hfrom|]. split; [exact Hto | exact Hkey].
Defined.

(** Neither "gold" nor "gol" holds the separator, so the pairs
    ("gold", "air-miles") and ("gol", "d-air-miles") have different keys. *)
Lemma brandPairKey_injective_without_separator_gold :
  brandPairKey "gold" "air-miles" <> brandPairKey "gol" "d-air-miles".
Proof.
  intros Hkey.
  destruct (brandPairKey_injective_without_separator "gold" "air-miles" "gol" "d-air-miles")
    as [Hfrom _].
  - simpl. intros [H|[H|[H|[H|[]]]]]; discriminate H.
  - simpl. intros [H|[H|[H|[]]]]; discriminate H.
  - exact Hkey.
  - discriminate Hfrom.
Defined.

(** The log of the ledger ends its record of "A-B" with the rate 2. *)
Lemma reachable_last_rate_event_AB :
  publicRate (rate_at Ledger.with_account "A-B") = 2
  /\ last_rate_event "A-B" (events Ledger.with_account) = Some 2.
Proof.
  split; [|reflexivity].
  exact (eq_trans
           (reachable_last_rate_event Ledger.with_account "A-B" with_account_reachable)
           eq_refl).
Defined.

Lemma reachable_accounts_announced_alice :
  announced Ledger.alice (events Ledger.deactivated).
Proof.
  apply (reachable_accounts_announced Ledger.deactivated Ledger.alice).
  - apply deactivated_reachable.
  - discriminate.
Defined.
